(** * UnityAspectLock: aspect-ratio lock of a window during a live resize

    A shallow embedding of [UnityAspectLock.cpp].

    - [LONG] and [int] are 32-bit two's-complement integers, modelled as [Z]
      with the wrap-around written out ([Int32.wrap]); a signed overflow,
      which C++ leaves undefined, wraps as it does in the compiled DLL.
    - [float] is IEEE-754 binary32 with round-to-nearest-even, modelled by
      the Standard Library's [spec_float] at precision 24 and exponent
      bound 128, so that every floating-point operation of the source is
      computed bit for bit.
    - the three globals [g_hwnd], [g_installed], [g_aspect] are the record
      [LockState], passed explicitly.
    - the window system (the windows that [EnumWindows] lists, the subclass
      chain that [SetWindowSubclass] edits) is the record [World]. *)

From Stdlib Require Import ZArith Lia Bool List QArith Qabs Qpower Qround Lqa.
From Stdlib Require Import Floats.SpecFloat.
Import ListNotations.
Local Open Scope Z_scope.

(** ** 32-bit signed integers *)

Module Int32.
Definition min_signed : Z := - 2 ^ 31.
Definition max_signed : Z := 2 ^ 31 - 1.

Definition in_range (z : Z) : Prop := min_signed <= z <= max_signed.

(** Reduction of an integer to the signed 32-bit range. *)
Definition wrap (z : Z) : Z := (z + 2 ^ 31) mod 2 ^ 32 - 2 ^ 31.

Definition add (a b : Z) : Z := wrap (a + b).
Definition sub (a b : Z) : Z := wrap (a - b).
End Int32.

(** ** binary32 floating point *)

Module F32.
Definition prec : Z := 24.
Definition emax : Z := 128.

Definition float : Type := spec_float.

Definition zero : float := S754_zero false.

(** The conversion [(float)n] of an integer: round to nearest, ties to
    even. *)
Definition of_int (n : Z) : float := binary_normalize prec emax n 0 false.

Definition mul : float -> float -> float := SFmul prec emax.
Definition div : float -> float -> float := SFdiv prec emax.
Definition sub : float -> float -> float := SFsub prec emax.
Definition fabs : float -> float := SFabs.
Definition ltb : float -> float -> bool := SFltb.
Definition leb : float -> float -> bool := SFleb.

(** The rational number a float stands for, [(-1)^s * m * 2^e]; 0 for
    infinities and NaN. *)
Definition to_Q (x : float) : Q :=
  match x with
  | S754_finite s m e => (inject_Z (cond_Zopp s (Zpos m)) * 2 ^ e)%Q
  | _ => 0%Q
  end.

(** The magnitude of a finite float rounded to the nearest integer,
    halfway cases away from zero. *)
Definition round_magnitude (m : positive) (e : Z) : Z :=
  match e with
  | Z0 => Zpos m
  | Zpos p => Zpos m * 2 ^ Zpos p
  | Zneg p => (2 * Zpos m + 2 ^ Zpos p) / (2 * 2 ^ Zpos p)
  end.

(** The mathematical result of rounding half away from zero; [None] for
    infinities and NaN. *)
Definition round_half_away (x : float) : option Z :=
  match x with
  | S754_zero _ => Some 0
  | S754_finite s m e =>
      Some (if s then - round_magnitude m e else round_magnitude m e)
  | S754_infinity _ | S754_nan => None
  end.
End F32.

(** ** Win32 constants and types *)

Definition HWND : Type := Z.
Definition nullptr : HWND := 0.

Definition WMSZ_LEFT : Z := 1.
Definition WMSZ_RIGHT : Z := 2.
Definition WMSZ_TOP : Z := 3.
Definition WMSZ_TOPLEFT : Z := 4.
Definition WMSZ_TOPRIGHT : Z := 5.
Definition WMSZ_BOTTOM : Z := 6.
Definition WMSZ_BOTTOMLEFT : Z := 7.
Definition WMSZ_BOTTOMRIGHT : Z := 8.

Definition WM_SIZING : Z := 532.

Definition kSubclassId : Z := 3134983649.

(** [RECT]: four [LONG] edges. *)
Record RECT : Type := mkRECT {
  left : Z;
  top : Z;
  right : Z;
  bottom : Z
}.

Definition set_left (r : RECT) (v : Z) : RECT :=
  mkRECT v (top r) (right r) (bottom r).
Definition set_top (r : RECT) (v : Z) : RECT :=
  mkRECT (left r) v (right r) (bottom r).
Definition set_right (r : RECT) (v : Z) : RECT :=
  mkRECT (left r) (top r) v (bottom r).
Definition set_bottom (r : RECT) (v : Z) : RECT :=
  mkRECT (left r) (top r) (right r) v.

(** [r->right - r->left] and [r->bottom - r->top], as [int]. *)
Definition rect_width (r : RECT) : Z := Int32.sub (right r) (left r).
Definition rect_height (r : RECT) : Z := Int32.sub (bottom r) (top r).

(** Every edge of a [RECT] is a [LONG]. *)
Definition rect_in_range (r : RECT) : Prop :=
  Int32.in_range (left r) /\ Int32.in_range (top r) /\
  Int32.in_range (right r) /\ Int32.in_range (bottom r).

(** ** The globals *)

Record LockState : Type := mkLockState {
  g_hwnd : HWND;
  g_installed : bool;
  g_aspect : F32.float
}.

(** The state at process load: [nullptr], [false], [9.0f / 16.0f]. *)
Definition initial_state : LockState :=
  mkLockState nullptr false (F32.div (F32.of_int 9) (F32.of_int 16)).

(** ** The window system *)

Record WindowInfo : Type := mkWindowInfo {
  win_handle : HWND;
  win_pid : Z;
  win_visible : bool;
  win_owner : HWND
}.

(** [toplevel]: the top-level windows in the order [EnumWindows] visits
    them.  [subclass_ok h]: whether [SetWindowSubclass] succeeds on [h].
    [subclasses]: the subclass callbacks attached so far, as pairs of a
    window and a subclass id. *)
Record World : Type := mkWorld {
  current_pid : Z;
  toplevel : list WindowInfo;
  subclass_ok : HWND -> bool;
  subclasses : list (HWND * Z)
}.

Definition same_attachment (a b : HWND * Z) : bool :=
  (fst a =? fst b) && (snd a =? snd b).

(** [SetWindowSubclass(h, SubclassProc, id, 0)]: on success the callback is
    in the chain of [h] once; installing the same callback and id again
    only replaces its reference data. *)
Definition SetWindowSubclass (w : World) (h : HWND) (id : Z) : World * bool :=
  if subclass_ok w h then
    (if existsb (same_attachment (h, id)) (subclasses w) then w
     else mkWorld (current_pid w) (toplevel w) (subclass_ok w)
                  ((h, id) :: subclasses w),
     true)
  else (w, false).

(** [RemoveWindowSubclass(h, SubclassProc, id)]. *)
Definition RemoveWindowSubclass (w : World) (h : HWND) (id : Z) : World :=
  mkWorld (current_pid w) (toplevel w) (subclass_ok w)
          (filter (fun a => negb (same_attachment (h, id) a)) (subclasses w)).

(** The number of attachments of this module's callback. *)
Definition active_attachments (w : World) : nat :=
  length (filter (fun a => snd a =? kSubclassId) (subclasses w)).

(** [EnumWindows]: call [cb] on each window in turn until it returns
    [false]. *)
Fixpoint EnumWindows {A : Type} (cb : WindowInfo -> A -> A * bool)
    (ws : list WindowInfo) (a : A) : A :=
  match ws with
  | [] => a
  | x :: rest =>
      let (a', continue) := cb x a in
      if continue then EnumWindows cb rest a' else a'
  end.

Record Ctx : Type := mkCtx { ctx_pid : Z; ctx_hwnd : HWND }.

(** The lambda passed to [EnumWindows]. *)
Definition enum_callback (x : WindowInfo) (c : Ctx) : Ctx * bool :=
  if negb (win_pid x =? ctx_pid c) then (c, true)
  else if negb (win_visible x) then (c, true)
  else if negb (win_owner x =? nullptr) then (c, true)
  else (mkCtx (ctx_pid c) (win_handle x), false).

Definition FindMainWindowForCurrentProcess (w : World) : HWND :=
  ctx_hwnd (EnumWindows enum_callback (toplevel w) (mkCtx (current_pid w) nullptr)).

Section AspectLock.

(** [std::lround] on a value whose rounding does not fit a [long] (32 bits
    on Windows), on an infinity or on NaN returns an unspecified [long]:
    the development is parametric in it. *)
Variable lround_unspecified : F32.float -> Z.

Definition lround (v : F32.float) : Z :=
  match F32.round_half_away v with
  | Some z =>
      if (Int32.min_signed <=? z) && (z <=? Int32.max_signed) then z
      else Int32.wrap (lround_unspecified v)
  | None => Int32.wrap (lround_unspecified v)
  end.

Definition RoundToInt (v : F32.float) : Z := lround v.

(** The two lambdas of [ApplyAspect]; [h] and [w] are the captured current
    height and width. *)
Definition setHeightFromWidth (s : LockState) (h : Z) (newW : Z) : Z :=
  let newH := RoundToInt (F32.div (F32.of_int newW) (g_aspect s)) in
  if 0 <? newH then newH else h.

Definition setWidthFromHeight (s : LockState) (w : Z) (newH : Z) : Z :=
  let newW := RoundToInt (F32.mul (F32.of_int newH) (g_aspect s)) in
  if 0 <? newW then newW else w.

(** [errH < errW] of the corner case. *)
Definition driveByWidth (s : LockState) (w h : Z) : bool :=
  let idealHFromW := F32.div (F32.of_int w) (g_aspect s) in
  let idealWFromH := F32.mul (F32.of_int h) (g_aspect s) in
  let errH := F32.fabs (F32.sub idealHFromW (F32.of_int h)) in
  let errW := F32.fabs (F32.sub idealWFromH (F32.of_int w)) in
  F32.ltb errH errW.

(** [ApplyAspect(r, edge)]; [None] is the null pointer, the result is the
    rectangle behind [r] when the function returns. *)
Definition ApplyAspect (s : LockState) (r : option RECT) (edge : Z)
    : option RECT :=
  match r with
  | None => None
  | Some rc =>
    if F32.leb (g_aspect s) F32.zero then Some rc
    else
      let w := rect_width rc in
      let h := rect_height rc in
      if (w <=? 0) || (h <=? 0) then Some rc
      else if (edge =? WMSZ_TOP) || (edge =? WMSZ_BOTTOM) then
        let newH := h in
        let newW := setWidthFromHeight s w newH in
        Some (set_right rc (Int32.add (left rc) newW))
      else if (edge =? WMSZ_LEFT) || (edge =? WMSZ_RIGHT) then
        let newW := w in
        let newH := setHeightFromWidth s h newW in
        Some (set_bottom rc (Int32.add (top rc) newH))
      else if (edge =? WMSZ_TOPLEFT) || (edge =? WMSZ_TOPRIGHT)
              || (edge =? WMSZ_BOTTOMLEFT) || (edge =? WMSZ_BOTTOMRIGHT) then
        if driveByWidth s w h then
          let newH := setHeightFromWidth s h w in
          if (edge =? WMSZ_TOPLEFT) || (edge =? WMSZ_TOPRIGHT) then
            Some (set_top rc (Int32.sub (bottom rc) newH))
          else
            Some (set_bottom rc (Int32.add (top rc) newH))
        else
          let newW := setWidthFromHeight s w h in
          if (edge =? WMSZ_TOPLEFT) || (edge =? WMSZ_BOTTOMLEFT) then
            Some (set_left rc (Int32.sub (right rc) newW))
          else
            Some (set_right rc (Int32.add (left rc) newW))
      else Some rc
  end.

(** What [SubclassProc] does with a message: handle it, or pass it on to
    [DefSubclassProc]. *)
Inductive ProcResult : Type :=
| Handled (lresult : Z) (rect : option RECT)
| Forwarded.

Definition SubclassProc (s : LockState) (msg wParam : Z) (lParam : option RECT)
    (uIdSubclass : Z) : ProcResult :=
  if negb (uIdSubclass =? kSubclassId) then Forwarded
  else if msg =? WM_SIZING then Handled 1 (ApplyAspect s lParam wParam)
  else Forwarded.

End AspectLock.

(** ** The exported functions *)

Definition UnityAspectLock_Install (s : LockState) (w : World)
    (aspectWidth aspectHeight : F32.float) : Z * LockState * World :=
  if g_installed s then (1, s, w)
  else if F32.leb aspectWidth F32.zero || F32.leb aspectHeight F32.zero
  then (0, s, w)
  else
    let s1 := mkLockState (g_hwnd s) (g_installed s)
                          (F32.div aspectWidth aspectHeight) in
    let s2 := mkLockState (FindMainWindowForCurrentProcess w)
                          (g_installed s1) (g_aspect s1) in
    if g_hwnd s2 =? nullptr then (0, s2, w)
    else
      let (w', ok) := SetWindowSubclass w (g_hwnd s2) kSubclassId in
      if negb ok then (0, s2, w')
      else (1, mkLockState (g_hwnd s2) true (g_aspect s2), w').

Definition UnityAspectLock_Uninstall (s : LockState) (w : World)
    : LockState * World :=
  if negb (g_installed s) then (s, w)
  else
    let w' := if negb (g_hwnd s =? nullptr)
              then RemoveWindowSubclass w (g_hwnd s) kSubclassId else w in
    (mkLockState nullptr false (g_aspect s), w').

Definition UnityAspectLock_IsInstalled (s : LockState) : Z :=
  if g_installed s then 1 else 0.

(** The four corner values of the drag edge. *)
Definition is_corner (edge : Z) : Prop :=
  edge = WMSZ_TOPLEFT \/ edge = WMSZ_TOPRIGHT \/
  edge = WMSZ_BOTTOMLEFT \/ edge = WMSZ_BOTTOMRIGHT.

(** ** Notions used to state and prove the rounding bounds *)

(** The nearest integer to a non-negative rational, halves upwards. *)
Definition round_nearest (q : Q) : Z := Qfloor (q + (1 # 2)).

(** [round(width / height)]. *)
Definition rounded_ratio (w h : Z) : Z := round_nearest (inject_Z w / inject_Z h).

(** [x] is within one pixel of the ideal dimension [ideal]. *)
Definition within_one_pixel (x : Z) (ideal : Q) : Prop :=
  (Qabs (inject_Z x - ideal) < 1)%Q.

(** The position of the fraction [N / D] between two integers, as the
    floating-point rounding procedure records it. *)
Definition loc_of (N D : Z) : location :=
  if N mod D =? 0 then loc_Exact else loc_Inexact (2 * (N mod D) ?= D).

(** The truncated mantissa [mrs] with its two extra bits stands for
    [N / D]. *)
Definition describes (N D : Z) (mrs : shr_record) : Prop :=
  shr_m mrs = N / D /\ loc_of_shr_record mrs = loc_of N D.

(** ** Notions used to state the properties of the other functions *)

(** The window test of the [EnumWindows] lambda: owned by process [pid],
    visible, and without an owner window. *)
Definition eligible (pid : Z) (x : WindowInfo) : bool :=
  (win_pid x =? pid) && win_visible x && (win_owner x =? nullptr).

(** The rectangle moved by [(dx, dy)], in [LONG] arithmetic. *)
Definition translate (dx dy : Z) (r : RECT) : RECT :=
  mkRECT (Int32.add (left r) dx) (Int32.add (top r) dy)
         (Int32.add (right r) dx) (Int32.add (bottom r) dy).

(** The number of edges on which two rectangles differ. *)
Definition edges_changed (r r' : RECT) : Z :=
  (if left r =? left r' then 0 else 1) +
  (if top r =? top r' then 0 else 1) +
  (if right r =? right r' then 0 else 1) +
  (if bottom r =? bottom r' then 0 else 1).

(** ** Sample data *)

(** A desktop on which another module has subclassed window 102 with its
    own id 77, and window 7 of another process carries the id of this
    module. *)
Definition shared_world : World :=
  mkWorld 42
    [ mkWindowInfo 7 1 true 0;
      mkWindowInfo 102 42 true 0 ]
    (fun _ => true) [(102, 77); (7, kSubclassId)].


(** One admissible [lround] on unrepresentable results: the x86 "integer
    indefinite" value. *)
Definition lround_indefinite : F32.float -> Z := fun _ => Int32.min_signed.

Definition f16 : F32.float := F32.of_int 16.
Definition f9 : F32.float := F32.of_int 9.

(** A desktop with four top-level windows; the current process is 42 and
    its main window is 102. *)
Definition demo_world : World :=
  mkWorld 42
    [ mkWindowInfo 7 1 true 0;
      mkWindowInfo 100 42 false 0;
      mkWindowInfo 101 42 true 100;
      mkWindowInfo 102 42 true 0 ]
    (fun _ => true) [].

(** The same desktop where subclassing is refused. *)
Definition refusing_world : World :=
  mkWorld 42 (toplevel demo_world) (fun _ => false) [].

(** A desktop on which the current process has no window yet. *)
Definition empty_world : World := mkWorld 42 [mkWindowInfo 7 1 true 0] (fun _ => true) [].

(** The state and the window system after [Install(16, 9)] at process
    load on [demo_world]. *)
Definition installed_16_9 : LockState := mkLockState 102 true (F32.div f16 f9).
Definition attached_world : World :=
  mkWorld 42 (toplevel demo_world) (fun _ => true) [(102, kSubclassId)].

(** Other installed states: the ratios 9:16, 1:1000, 10:1, 1000:1 and
    1:1. *)
Definition portrait_9_16 : LockState := mkLockState 102 true (F32.div f9 f16).
Definition thousandth : F32.float := F32.div (F32.of_int 1) (F32.of_int 1000).
Definition ratio_1_1000 : LockState := mkLockState 102 true thousandth.
Definition ratio_10_1 : LockState :=
  mkLockState 102 true (F32.div (F32.of_int 10) (F32.of_int 1)).
Definition ratio_1000_1 : LockState :=
  mkLockState 102 true (F32.div (F32.of_int 1000) (F32.of_int 1)).
Definition ratio_1_1 : LockState :=
  mkLockState 102 true (F32.div (F32.of_int 1) (F32.of_int 1)).

(** * Properties of the exported functions *)

Lemma positive_not_leb_zero (x : F32.float) :
  F32.ltb F32.zero x = true -> F32.leb x F32.zero = false.
Proof.
  destruct x as [sx | sx | | sx m e]; try destruct sx; cbn; congruence.
Qed.

Lemma install_when_installed s w aw ah :
  g_installed s = true -> UnityAspectLock_Install s w aw ah = (1, s, w).
Proof.
  intros H. unfold UnityAspectLock_Install. now rewrite H.
Qed.

(** The state an [Install] that gets past the argument check leaves
    behind. *)
Lemma install_fresh s w aw ah :
  g_installed s = false ->
  F32.leb aw F32.zero = false -> F32.leb ah F32.zero = false ->
  UnityAspectLock_Install s w aw ah =
    let h := FindMainWindowForCurrentProcess w in
    if h =? nullptr then (0, mkLockState h false (F32.div aw ah), w)
    else if subclass_ok w h
         then (1, mkLockState h true (F32.div aw ah),
               fst (SetWindowSubclass w h kSubclassId))
         else (0, mkLockState h false (F32.div aw ah), w).
Proof.
  intros Hi Hw Hh. unfold UnityAspectLock_Install.
  rewrite Hi, Hw, Hh. cbn [orb g_hwnd g_installed g_aspect].
  destruct (FindMainWindowForCurrentProcess w =? nullptr); [reflexivity|].
  unfold SetWindowSubclass.
  destruct (subclass_ok w (FindMainWindowForCurrentProcess w)); reflexivity.
Qed.

Lemma attach_count w h :
  subclass_ok w h = true ->
  active_attachments w = 0%nat ->
  active_attachments (fst (SetWindowSubclass w h kSubclassId)) = 1%nat.
Proof.
  unfold active_attachments, SetWindowSubclass. intros Hok H0.
  rewrite Hok. cbn [fst].
  destruct (existsb (same_attachment (h, kSubclassId)) (subclasses w)) eqn:E.
  - apply existsb_exists in E. destruct E as [a [Ha Hs]].
    unfold same_attachment in Hs. apply andb_true_iff in Hs.
    destruct Hs as [_ Hs]. cbn [snd] in Hs.
    assert (In a (filter (fun a => snd a =? kSubclassId) (subclasses w))) as Hin.
    { apply filter_In. split; [exact Ha|].
      apply Z.eqb_eq in Hs. rewrite <- Hs. apply Z.eqb_refl. }
    destruct (filter (fun a => snd a =? kSubclassId) (subclasses w));
      [destruct Hin | discriminate].
  - cbn [subclasses filter snd]. rewrite Z.eqb_refl. cbn [length].
    now rewrite H0.
Qed.

(** C2 (as stated, refuted): with the lock installed, [Install(0, 0)]
    returns 1, not 0. *)
Lemma C2_installed_returns_1 :
  F32.leb F32.zero F32.zero = true /\
  fst (fst (UnityAspectLock_Install installed_16_9 attached_world F32.zero F32.zero)) <> 0.
Proof.
  split; [reflexivity | cbn; discriminate].
Qed.

(** C2 (amended): when [aspectWidth <= 0] or [aspectHeight <= 0], [Install]
    leaves the globals and the window system exactly as they were, in
    every state; it returns 0 when the lock is not installed and 1 when it
    already is. *)
Theorem C2_install_rejects_nonpositive s w aw ah :
  F32.leb aw F32.zero = true \/ F32.leb ah F32.zero = true ->
  UnityAspectLock_Install s w aw ah = ((if g_installed s then 1 else 0), s, w).
Proof.
  intros H. unfold UnityAspectLock_Install.
  destruct (g_installed s); [reflexivity|].
  destruct H as [H | H]; rewrite H; [reflexivity|].
  now rewrite orb_true_r.
Qed.

Lemma C2_install_rejects_nonpositive_witness :
  UnityAspectLock_Install initial_state demo_world (F32.of_int (-4)) f9
  = (0, initial_state, demo_world).
Proof.
  apply (C2_install_rejects_nonpositive initial_state demo_world (F32.of_int (-4)) f9).
  left. reflexivity.
Defined.

(** C3 (as stated, refuted): after the successful [Install(16, 9)] the
    stored ratio is [16/9], which is not [9/16]. *)
Lemma C3_stored_ratio_is_not_height_over_width :
  UnityAspectLock_Install initial_state demo_world f16 f9
    = (1, installed_16_9, attached_world) /\
  g_aspect installed_16_9 = S754_finite false 14913081 (-23) /\
  g_aspect installed_16_9 <> F32.div f9 f16.
Proof.
  split; [reflexivity|]. split; [reflexivity|].
  vm_compute. discriminate.
Qed.

Lemma install_success_ratio s w aw ah s' w' :
  g_installed s = false ->
  UnityAspectLock_Install s w aw ah = (1, s', w') ->
  g_aspect s' = F32.div aw ah.
Proof.
  intros Hi. unfold UnityAspectLock_Install. rewrite Hi.
  destruct (F32.leb aw F32.zero || F32.leb ah F32.zero); [discriminate|].
  cbn [g_hwnd g_installed g_aspect].
  destruct (FindMainWindowForCurrentProcess w =? nullptr); [discriminate|].
  destruct (SetWindowSubclass w (FindMainWindowForCurrentProcess w) kSubclassId)
    as [w1 ok].
  destruct ok; cbn [negb]; [|discriminate].
  intros H. injection H as <- _. reflexivity.
Qed.

(** C3 (amended): after an [Install(aspectWidth, aspectHeight)] that
    succeeds from the uninstalled state, the stored ratio is the binary32
    quotient [aspectWidth / aspectHeight], width over height. *)
Theorem C3_stored_ratio_is_width_over_height s w aw ah s' w' :
  g_installed s = false ->
  UnityAspectLock_Install s w aw ah = (1, s', w') ->
  g_aspect s' = F32.div aw ah.
Proof. apply install_success_ratio. Qed.

Lemma C3_stored_ratio_is_width_over_height_witness :
  g_aspect installed_16_9 = F32.div f16 f9.
Proof.
  apply (C3_stored_ratio_is_width_over_height
           initial_state demo_world f16 f9 installed_16_9 attached_world);
    reflexivity.
Defined.

(** C9: [Install] on an installed lock returns 1 and changes neither the
    globals nor the window system, whatever the arguments; so after an
    [Install] that succeeds from the uninstalled state with no attachment
    of this module, a second [Install] returns 1 as well, changes nothing
    and exactly one attachment is active. *)
Theorem C9_install_idempotent :
  (forall s w aw ah,
     g_installed s = true ->
     UnityAspectLock_Install s w aw ah = (1, s, w)) /\
  (forall s w aw ah aw' ah' s1 w1,
     g_installed s = false ->
     active_attachments w = 0%nat ->
     UnityAspectLock_Install s w aw ah = (1, s1, w1) ->
     UnityAspectLock_Install s1 w1 aw' ah' = (1, s1, w1) /\
     g_installed s1 = true /\
     active_attachments w1 = 1%nat).
Proof.
  split; [exact install_when_installed|].
  intros s w aw ah aw' ah' s1 w1 Hi H0 H.
  unfold UnityAspectLock_Install in H. rewrite Hi in H.
  destruct (F32.leb aw F32.zero || F32.leb ah F32.zero); [discriminate|].
  cbn [g_hwnd g_installed g_aspect] in H.
  destruct (FindMainWindowForCurrentProcess w =? nullptr); [discriminate|].
  pose proof (attach_count w (FindMainWindowForCurrentProcess w)) as Hc.
  unfold SetWindowSubclass in H, Hc.
  destruct (subclass_ok w (FindMainWindowForCurrentProcess w));
    cbn [negb fst] in H, Hc; [|discriminate].
  injection H as <- <-.
  split; [now apply install_when_installed|].
  split; [reflexivity|]. now apply Hc.
Qed.

Lemma C9_install_idempotent_witness :
  UnityAspectLock_Install installed_16_9 attached_world (F32.of_int (-1)) F32.zero
    = (1, installed_16_9, attached_world) /\
  UnityAspectLock_Install installed_16_9 attached_world (F32.of_int 4) (F32.of_int 3)
    = (1, installed_16_9, attached_world) /\
  g_installed installed_16_9 = true /\
  active_attachments attached_world = 1%nat.
Proof.
  split.
  - apply (proj1 C9_install_idempotent). reflexivity.
  - apply (proj2 C9_install_idempotent
             initial_state demo_world f16 f9 (F32.of_int 4) (F32.of_int 3));
      reflexivity.
Defined.

(** C10: an [Install] with positive arguments on an uninstalled lock that
    fails has already stored [aspectWidth / aspectHeight]: when no window
    is found the globals are [(nullptr, false, aspectWidth / aspectHeight)],
    when the attach is refused they are
    [(found window, false, aspectWidth / aspectHeight)]; it returns 0 and
    the window system is untouched in both cases. *)
Theorem C10_failed_install_leaves_residue s w aw ah :
  g_installed s = false ->
  F32.ltb F32.zero aw = true -> F32.ltb F32.zero ah = true ->
  let h := FindMainWindowForCurrentProcess w in
  (h = nullptr ->
   UnityAspectLock_Install s w aw ah
     = (0, mkLockState nullptr false (F32.div aw ah), w)) /\
  (h <> nullptr -> subclass_ok w h = false ->
   UnityAspectLock_Install s w aw ah
     = (0, mkLockState h false (F32.div aw ah), w)).
Proof.
  intros Hi Hw Hh h.
  apply positive_not_leb_zero in Hw. apply positive_not_leb_zero in Hh.
  rewrite (install_fresh s w aw ah Hi Hw Hh). fold h. cbv zeta.
  split.
  - intros E. rewrite E. reflexivity.
  - intros E Hok. apply Z.eqb_neq in E. rewrite E, Hok. reflexivity.
Qed.

Lemma C10_failed_install_leaves_residue_witness :
  UnityAspectLock_Install initial_state empty_world f16 f9
    = (0, mkLockState nullptr false (F32.div f16 f9), empty_world) /\
  UnityAspectLock_Install initial_state refusing_world f16 f9
    = (0, mkLockState 102 false (F32.div f16 f9), refusing_world).
Proof.
  split.
  - apply (proj1 (C10_failed_install_leaves_residue
                    initial_state empty_world f16 f9
                    eq_refl eq_refl eq_refl)).
    reflexivity.
  - apply (proj2 (C10_failed_install_leaves_residue
                    initial_state refusing_world f16 f9
                    eq_refl eq_refl eq_refl)).
    + vm_compute. discriminate.
    + reflexivity.
Defined.

(** * 32-bit arithmetic *)

Module Int32Facts.
Import Int32.

Lemma wrap_small z : in_range z -> wrap z = z.
Proof.
  unfold in_range, min_signed, max_signed, wrap. intros H.
  rewrite Z.mod_small; lia.
Qed.

Lemma wrap_in_range z : in_range (wrap z).
Proof.
  unfold in_range, min_signed, max_signed, wrap.
  pose proof (Z.mod_pos_bound (z + 2 ^ 31) (2 ^ 32)). lia.
Qed.

Lemma wrap_add_wrap_r a b : wrap (a + wrap b) = wrap (a + b).
Proof.
  unfold wrap. f_equal.
  replace (a + ((b + 2 ^ 31) mod 2 ^ 32 - 2 ^ 31) + 2 ^ 31)
    with (a + (b + 2 ^ 31) mod 2 ^ 32) by lia.
  rewrite Zplus_mod_idemp_r. f_equal. lia.
Qed.

Lemma wrap_sub_wrap_r a b : wrap (a - wrap b) = wrap (a - b).
Proof.
  unfold wrap. f_equal.
  replace (a - ((b + 2 ^ 31) mod 2 ^ 32 - 2 ^ 31) + 2 ^ 31)
    with (a + 2 ^ 32 - (b + 2 ^ 31) mod 2 ^ 32) by lia.
  rewrite Zminus_mod_idemp_r.
  f_equal. lia.
Qed.

Lemma wrap_sub_wrap_l a b : wrap (wrap a - b) = wrap (a - b).
Proof.
  replace (wrap a - b) with (- b + wrap a) by lia.
  rewrite wrap_add_wrap_r. f_equal. lia.
Qed.

(** [a + (b - a) = b]: re-deriving an edge from the unchanged dimension
    gives the edge back. *)
Lemma add_sub_cancel a b : in_range b -> add a (sub b a) = b.
Proof.
  intros H. unfold add, sub. rewrite wrap_add_wrap_r.
  replace (a + (b - a)) with b by lia. now apply wrap_small.
Qed.

Lemma sub_sub_cancel a b : in_range a -> sub b (sub b a) = a.
Proof.
  intros H. unfold sub. rewrite wrap_sub_wrap_r.
  replace (b - (b - a)) with a by lia. now apply wrap_small.
Qed.

(** The width of [left, left + n] is [n]. *)
Lemma sub_add_cancel a n : in_range n -> sub (add a n) a = n.
Proof.
  intros H. unfold add, sub. rewrite wrap_sub_wrap_l.
  replace (a + n - a) with n by lia. now apply wrap_small.
Qed.
End Int32Facts.

(** * binary32 rounding *)

Module Binary32Facts.

Lemma digits2_pos_bounds (m : positive) :
  2 ^ (Zpos (digits2_pos m) - 1) <= Zpos m < 2 ^ Zpos (digits2_pos m).
Proof.
  induction m as [m IH | m IH |]; cbn [digits2_pos].
  - rewrite Pos2Z.inj_succ.
    replace (Z.succ (Zpos (digits2_pos m)) - 1) with (Z.succ (Zpos (digits2_pos m) - 1)) by lia.
    rewrite !Z.pow_succ_r by lia. lia.
  - rewrite Pos2Z.inj_succ.
    replace (Z.succ (Zpos (digits2_pos m)) - 1) with (Z.succ (Zpos (digits2_pos m) - 1)) by lia.
    rewrite !Z.pow_succ_r by lia. lia.
  - cbn. lia.
Qed.

Lemma Zdigits2_bounds (M : Z) :
  0 < M -> 2 ^ (Zdigits2 M - 1) <= M < 2 ^ Zdigits2 M.
Proof.
  destruct M as [|p|p]; try lia. intros _. apply digits2_pos_bounds.
Qed.

Lemma Zdigits2_nonneg M : 0 <= Zdigits2 M.
Proof. destruct M; cbn; lia. Qed.

Lemma Zdigits2_unique (M d : Z) :
  2 ^ (d - 1) <= M < 2 ^ d -> 0 < M -> Zdigits2 M = d.
Proof.
  intros H HM. pose proof (Zdigits2_bounds M HM) as B.
  pose proof (Zdigits2_nonneg M).
  assert (0 < d) as Hd.
  { destruct (Z_lt_le_dec 0 d); [assumption|].
    assert (2 ^ d <= 2 ^ 0) by (destruct (Z.eq_dec d 0); [subst; lia|rewrite Z.pow_neg_r by lia; lia]).
    cbn in H1. lia. }
  destruct (Z_lt_le_dec (Zdigits2 M) d).
  - assert (2 ^ Zdigits2 M <= 2 ^ (d - 1)) by (apply Z.pow_le_mono_r; lia). lia.
  - destruct (Z_lt_le_dec d (Zdigits2 M)); [|lia].
    assert (2 ^ d <= 2 ^ (Zdigits2 M - 1)) by (apply Z.pow_le_mono_r; lia). lia.
Qed.

Lemma loc_of_cases N D r s m :
  0 < D ->
  loc_of_shr_record (Build_shr_record m r s) = loc_of N D ->
  match r, s with
  | false, false => N mod D = 0
  | false, true => 0 < N mod D /\ 2 * (N mod D) < D
  | true, false => 2 * (N mod D) = D
  | true, true => D < 2 * (N mod D)
  end.
Proof.
  intros HD. unfold loc_of. pose proof (Z.mod_pos_bound N D HD) as B.
  destruct (Z.eqb_spec (N mod D) 0) as [E|E];
    destruct (Z.compare_spec (2 * (N mod D)) D);
    destruct r, s; cbn [loc_of_shr_record]; intros HH; try discriminate HH; lia.
Qed.

Lemma loc_of_intro N D r s m :
  0 < D ->
  match r, s with
  | false, false => N mod D = 0
  | false, true => 0 < N mod D /\ 2 * (N mod D) < D
  | true, false => 2 * (N mod D) = D
  | true, true => D < 2 * (N mod D)
  end ->
  loc_of_shr_record (Build_shr_record m r s) = loc_of N D.
Proof.
  intros HD. unfold loc_of. pose proof (Z.mod_pos_bound N D HD) as B.
  destruct (Z.eqb_spec (N mod D) 0) as [E|E];
    destruct (Z.compare_spec (2 * (N mod D)) D);
    destruct r, s; cbn [loc_of_shr_record]; intros HH; try reflexivity; lia.
Qed.

Lemma shr_1_describes N D mrs :
  0 <= N -> 0 < D -> describes N D mrs -> describes N (2 * D) (shr_1 mrs).
Proof.
  intros HN HD [Hm Hl]. destruct mrs as [m r s]. cbn [shr_m] in Hm.
  apply loc_of_cases in Hl; [|exact HD].
  assert (N / (2 * D) = m / 2) as Hq.
  { rewrite Hm, Z.div_div by lia. f_equal. lia. }
  assert (N mod (2 * D) = N mod D + D * (m mod 2)) as Hr.
  { rewrite Hm. rewrite (Z.mul_comm 2 D). apply Z.rem_mul_r; lia. }
  assert (0 <= m) as Hm0 by (rewrite Hm; apply Z.div_pos; lia).
  pose proof (Z.mod_pos_bound N D HD) as B.
  unfold describes.
  destruct m as [|[p|p|]|p]; try lia; cbn [shr_1 shr_m]; rewrite Hq.
  - (* 0 *) split; [reflexivity|].
    apply loc_of_intro; [lia|]. rewrite Hr.
    change (0 mod 2) with 0. change (1 mod 2) with 1.
    destruct r, s; cbn [orb] in *; lia.
  - (* odd *) split; [rewrite Pos2Z.inj_xI; apply Z.div_unique with 1; lia|].
    apply loc_of_intro; [lia|]. rewrite Hr.
    replace (Z.pos p~1 mod 2) with 1
      by (rewrite Pos2Z.inj_xI; apply Z.mod_unique with (Zpos p); lia).
    destruct r, s; cbn [orb] in *; lia.
  - (* even *) split; [rewrite Pos2Z.inj_xO; apply Z.div_unique with 0; lia|].
    apply loc_of_intro; [lia|]. rewrite Hr.
    replace (Z.pos p~0 mod 2) with 0
      by (rewrite Pos2Z.inj_xO; apply Z.mod_unique with (Zpos p); lia).
    destruct r, s; cbn [orb] in *; lia.
  - (* 1 *) split; [reflexivity|].
    apply loc_of_intro; [lia|]. rewrite Hr.
    change (0 mod 2) with 0. change (1 mod 2) with 1.
    destruct r, s; cbn [orb] in *; lia.
Qed.

Lemma iter_shr_1_describes N p : forall D mrs,
  0 <= N -> 0 < D -> describes N D mrs ->
  describes N (D * 2 ^ Zpos p) (iter_pos shr_1 p mrs).
Proof.
  induction p as [p IH | p IH |]; intros D mrs HN HD H; cbn [iter_pos].
  - replace (D * 2 ^ Zpos p~1) with (((2 * D) * 2 ^ Zpos p) * 2 ^ Zpos p).
    + apply IH; [lia| |]. { assert (0 < 2 ^ Zpos p) by (apply Z.pow_pos_nonneg; lia). nia. }
      apply IH; [lia|lia|]. now apply shr_1_describes.
    + assert (2 ^ Zpos p~1 = 2 * (2 ^ Zpos p * 2 ^ Zpos p)) as E.
      { rewrite <- Z.pow_add_r, <- Z.pow_succ_r by lia. f_equal. lia. }
      rewrite E. ring.
  - replace (D * 2 ^ Zpos p~0) with ((D * 2 ^ Zpos p) * 2 ^ Zpos p).
    + apply IH; [lia| |]. { assert (0 < 2 ^ Zpos p) by (apply Z.pow_pos_nonneg; lia). nia. }
      apply IH; [lia|lia|]. exact H.
    + assert (2 ^ Zpos p~0 = 2 ^ Zpos p * 2 ^ Zpos p) as E.
      { rewrite <- Z.pow_add_r by lia. f_equal. lia. }
      rewrite E. ring.
  - change (2 ^ 1) with 2. rewrite Z.mul_comm. now apply shr_1_describes.
Qed.

Lemma shr_record_of_loc_describes N D :
  0 < D -> describes N D (shr_record_of_loc (N / D) (loc_of N D)).
Proof.
  intros HD. unfold describes. split.
  - destruct (loc_of N D) as [|[| |]]; reflexivity.
  - destruct (loc_of N D) as [|[| |]]; reflexivity.
Qed.

Lemma fexp32 x : fexp 24 128 x = Z.max (x - 24) (-149).
Proof. reflexivity. Qed.

Lemma shr_describes N D mrs e n :
  0 <= N -> 0 < D -> describes N D mrs ->
  snd (shr mrs e n) = e + Z.max 0 n /\
  describes N (D * 2 ^ Z.max 0 n) (fst (shr mrs e n)).
Proof.
  intros HN HD H. destruct n as [|p|p]; cbn [shr fst snd].
  - change (Z.max 0 0) with 0. rewrite Z.add_0_r, Z.pow_0_r, Z.mul_1_r. now split.
  - replace (Z.max 0 (Zpos p)) with (Zpos p) by lia. split; [reflexivity|].
    now apply iter_shr_1_describes.
  - replace (Z.max 0 (Zneg p)) with 0 by lia.
    rewrite Z.add_0_r, Z.pow_0_r, Z.mul_1_r. now split.
Qed.

Lemma round_nearest_even_spec N D mrs :
  0 <= N -> 0 < D -> describes N D mrs ->
  let m := round_nearest_even (shr_m mrs) (loc_of_shr_record mrs) in
  (m = N / D \/ m = N / D + 1) /\ 2 * Z.abs (m * D - N) <= D.
Proof.
  intros HN HD [Hm Hl] m. subst m. rewrite Hm.
  pose proof (Z.mod_pos_bound N D HD) as B.
  pose proof (Z.div_mod N D ltac:(lia)) as E.
  destruct mrs as [m r s]. pose proof (loc_of_cases N D r s m HD Hl) as C.
  destruct r, s; cbn [loc_of_shr_record round_nearest_even].
  - split; [right; reflexivity|]. nia.
  - destruct (Z.even (N / D)); (split; [tauto|]); nia.
  - split; [left; reflexivity|]. nia.
  - split; [left; reflexivity|]. nia.
Qed.

Lemma Zdigits2_le m k : 0 <= m < 2 ^ k -> 0 <= k -> Zdigits2 m <= k.
Proof.
  intros [H0 H] Hk. destruct (Z.eq_dec m 0) as [->|Hm]; [cbn; lia|].
  pose proof (Zdigits2_bounds m ltac:(lia)) as B.
  pose proof (Zdigits2_nonneg m).
  destruct (Z_lt_le_dec k (Zdigits2 m)); [|lia].
  assert (2 ^ k <= 2 ^ (Zdigits2 m - 1)) by (apply Z.pow_le_mono_r; lia). lia.
Qed.

Lemma Zdigits2_succ m :
  0 <= m ->
  Zdigits2 (m + 1) <= Zdigits2 m \/
  (m + 1 = 2 ^ Zdigits2 m /\ Zdigits2 (m + 1) = Zdigits2 m + 1).
Proof.
  intros H0. pose proof (Zdigits2_nonneg m) as Hd.
  assert (m < 2 ^ Zdigits2 m) as Hlt.
  { destruct (Z.eq_dec m 0) as [->|Hm]; [cbn; lia|].
    apply Zdigits2_bounds. lia. }
  destruct (Z.eq_dec (m + 1) (2 ^ Zdigits2 m)) as [E|E].
  - right. split; [exact E|]. apply Zdigits2_unique; [|lia].
    replace (Zdigits2 m + 1 - 1) with (Zdigits2 m) by lia.
    rewrite Z.pow_add_r by lia. change (2 ^ 1) with 2. lia.
  - left. apply Zdigits2_le; lia.
Qed.

Lemma Zdigits2_div_pow2 M n :
  0 <= M -> 0 <= n -> Zdigits2 (M / 2 ^ n) <= Z.max 0 (Zdigits2 M - n).
Proof.
  intros HM Hn. pose proof (Zdigits2_nonneg M) as Hd.
  assert (0 < 2 ^ n) as Hp by (apply Z.pow_pos_nonneg; lia).
  destruct (Z.eq_dec M 0) as [->|HM0]; [rewrite Z.div_0_l by lia; cbn; lia|].
  pose proof (Zdigits2_bounds M ltac:(lia)) as B.
  destruct (Z_lt_le_dec n (Zdigits2 M)).
  - rewrite Z.max_r by lia. apply Zdigits2_le; [|lia]. split.
    + apply Z.div_pos; lia.
    + apply Z.div_lt_upper_bound; [lia|].
      rewrite <- Z.pow_add_r by lia.
      replace (n + (Zdigits2 M - n)) with (Zdigits2 M) by lia. lia.
  - rewrite Z.max_l by lia.
    assert (M / 2 ^ n = 0) as ->; [|cbn; lia].
    apply Z.div_small. split; [lia|].
    assert (2 ^ Zdigits2 M <= 2 ^ n) by (apply Z.pow_le_mono_r; lia). lia.
Qed.

Lemma second_shift M e n e' m' m'' :
  0 <= M ->
  n = Z.max 0 (fexp 24 128 (Zdigits2 M + e) - e) ->
  e' = e + n ->
  m' = M / 2 ^ n ->
  m'' = m' \/ m'' = m' + 1 ->
  fexp 24 128 (Zdigits2 m'' + e') - e' <= 0 \/
  (fexp 24 128 (Zdigits2 m'' + e') - e' = 1 /\ exists p, m'' = Zpos (xO p)).
Proof.
  intros HM Hn He' Hm' Hm''. rewrite !fexp32 in *.
  assert (0 <= n) as Hn0 by lia.
  pose proof (Zdigits2_div_pow2 M n HM Hn0) as Hd. rewrite <- Hm' in Hd.
  assert (0 <= m') as Hm0 by (subst m'; apply Z.div_pos; [lia|apply Z.pow_pos_nonneg; lia]).
  pose proof (Zdigits2_nonneg m') as Hdn.
  pose proof (Zdigits2_nonneg M) as HdM.
  destruct Hm'' as [-> | ->]; [left; lia|].
  destruct (Zdigits2_succ m' Hm0) as [Hs | [Hp Hs]]; [left; lia|].
  rewrite Hs.
  destruct (Z_le_gt_dec (Z.max (Zdigits2 m' + 1 + e' - 24) (-149) - e') 0) as [L|G];
    [left; exact L|].
  right. split; [lia|].
  assert (1 <= Zdigits2 m') as Hk by lia.
  rewrite Hp.
  replace (Zdigits2 m') with (Z.succ (Zdigits2 m' - 1)) by lia.
  rewrite Z.pow_succ_r by lia.
  assert (0 < 2 ^ (Zdigits2 m' - 1)) as Hpos by (apply Z.pow_pos_nonneg; lia).
  destruct (2 ^ (Zdigits2 m' - 1)) as [|p|p]; try lia.
  exists p. reflexivity.
Qed.

Lemma binary_round_aux_spec sx N D e :
  0 <= N -> 0 < D ->
  let n := Z.max 0 (fexp 24 128 (Zdigits2 (N / D) + e) - e) in
  exists m : Z,
    (m = N / (D * 2 ^ n) \/ m = N / (D * 2 ^ n) + 1) /\
    2 * Z.abs (m * (D * 2 ^ n) - N) <= D * 2 ^ n /\
    (binary_round_aux 24 128 sx (N / D) e (loc_of N D) = S754_zero sx /\ m = 0 \/
     binary_round_aux 24 128 sx (N / D) e (loc_of N D) = S754_infinity sx /\
       104 <= e + n \/
     exists mf ef,
       binary_round_aux 24 128 sx (N / D) e (loc_of N D) = S754_finite sx mf ef /\
       (ef = e + n /\ Zpos mf = m \/ ef = e + n + 1 /\ 2 * Zpos mf = m)).
Proof.
  intros HN HD n.
  assert (0 <= n) as Hn0 by (subst n; lia).
  assert (0 < 2 ^ n) as Hp by (apply Z.pow_pos_nonneg; lia).
  assert (0 < D * 2 ^ n) as HD' by nia.
  unfold binary_round_aux, shr_fexp.
  destruct (shr_describes N D (shr_record_of_loc (N / D) (loc_of N D)) e
              (fexp 24 128 (Zdigits2 (N / D) + e) - e) HN HD
              (shr_record_of_loc_describes N D HD)) as [He' Hd'].
  fold n in He', Hd'.
  destruct (shr (shr_record_of_loc (N / D) (loc_of N D)) e
              (fexp 24 128 (Zdigits2 (N / D) + e) - e)) as [mrs' e'].
  cbn [fst snd] in He', Hd'.
  destruct (round_nearest_even_spec N (D * 2 ^ n) mrs' HN HD' Hd') as [Hm Herr].
  set (m := round_nearest_even (shr_m mrs') (loc_of_shr_record mrs')) in *.
  exists m. split; [exact Hm|]. split; [exact Herr|].
  assert (0 <= N / (D * 2 ^ n)) as Hq0 by (apply Z.div_pos; lia).
  assert (0 <= m) as Hm0 by lia.
  assert (0 <= N / D) as HM by (apply Z.div_pos; lia).
  destruct (second_shift (N / D) e n e' (N / (D * 2 ^ n)) m HM eq_refl He'
              ltac:(rewrite Z.div_div by lia; reflexivity) Hm)
    as [L | [L [p Hp2]]].
  - (* no second shift *)
    assert (shr (shr_record_of_loc m loc_Exact) e'
              (fexp 24 128 (Zdigits2 m + e') - e')
            = (shr_record_of_loc m loc_Exact, e')) as ->.
    { destruct (fexp 24 128 (Zdigits2 m + e') - e') as [|q|q]; try reflexivity; lia. }
    cbn [shr_record_of_loc shr_m].
    destruct m as [|q|q]; [left; now split | | lia].
    right. destruct (Z.leb_spec e' (128 - 24)); [right | left; split; [reflexivity|lia]].
    exists q, e'. split; [reflexivity|]. left. split; [exact He' | reflexivity].
  - (* one more bit after a carry *)
    rewrite L, Hp2. cbn [shr shr_record_of_loc iter_pos shr_1 shr_m].
    right. destruct (Z.leb_spec (e' + 1) (128 - 24)); [right | left; split; [reflexivity|lia]].
    exists p, (e' + 1). split; [reflexivity|]. right. split; [lia|].
    rewrite <- Hp2. now rewrite Hp2.
Qed.

Lemma round_magnitude_scaled m e k :
  0 <= k -> 0 <= e + k ->
  F32.round_magnitude m e = (2 * (Zpos m * 2 ^ (e + k)) + 2 ^ k) / (2 * 2 ^ k).
Proof.
  intros Hk Hek.
  assert (0 < 2 ^ k) as Hp by (apply Z.pow_pos_nonneg; lia).
  destruct e as [|p|p]; cbn [F32.round_magnitude].
  - cbn [Z.add]. apply Z.div_unique with (2 ^ k); lia.
  - rewrite Z.pow_add_r by lia.
    apply Z.div_unique with (2 ^ k); [lia|]. ring.
  - assert (0 < 2 ^ Zpos p) as Hq by (apply Z.pow_pos_nonneg; lia).
    assert (2 ^ k = 2 ^ Zpos p * 2 ^ (Zneg p + k)) as E.
    { rewrite <- Z.pow_add_r by lia. f_equal. lia. }
    assert (0 < 2 ^ (Zneg p + k)) as Hr by (apply Z.pow_pos_nonneg; lia).
    rewrite E.
    replace (2 * (Zpos m * 2 ^ (Zneg p + k)) + 2 ^ Zpos p * 2 ^ (Zneg p + k))
      with ((2 * Zpos m + 2 ^ Zpos p) * 2 ^ (Zneg p + k)) by ring.
    replace (2 * (2 ^ Zpos p * 2 ^ (Zneg p + k)))
      with ((2 * 2 ^ Zpos p) * 2 ^ (Zneg p + k)) by ring.
    rewrite Z.div_mul_cancel_r by lia. reflexivity.
Qed.

Lemma final_bound N D m n k z :
  0 < D -> 0 <= n <= k ->
  2 * Z.abs (m * (D * 2 ^ n) - N) <= D * 2 ^ n ->
  z = (2 * (m * 2 ^ n) + 2 ^ k) / (2 * 2 ^ k) ->
  4 * Z.abs (z * (2 ^ k * D) - N) <= 3 * (2 ^ k * D).
Proof.
  intros HD [Hn Hnk] Herr Hz.
  assert (0 < 2 ^ n) as Hpn by (apply Z.pow_pos_nonneg; lia).
  assert (0 < 2 ^ k) as Hpk by (apply Z.pow_pos_nonneg; lia).
  destruct (Z.eq_dec n k) as [->|Hne].
  - assert (z = m) as ->.
    { rewrite Hz. symmetry. apply Z.div_unique with (2 ^ k); lia. }
    nia.
  - assert (2 ^ k = 2 * 2 ^ n * 2 ^ (k - n - 1)) as E.
    { rewrite <- Z.pow_succ_r, <- Z.pow_add_r by lia. f_equal. lia. }
    assert (0 < 2 ^ (k - n - 1)) as Hc by (apply Z.pow_pos_nonneg; lia).
    pose proof (Z.div_mod (2 * (m * 2 ^ n) + 2 ^ k) (2 * 2 ^ k) ltac:(lia)) as Hdm.
    pose proof (Z.mod_pos_bound (2 * (m * 2 ^ n) + 2 ^ k) (2 * 2 ^ k) ltac:(lia)) as Hb.
    rewrite <- Hz in Hdm.
    set (S := 2 ^ k) in *. set (T := 2 ^ n) in *. set (c := 2 ^ (k - n - 1)) in *.
    set (rr := (2 * (m * T) + S) mod (2 * S)) in *.
    assert (2 * Z.abs (z * S - m * T) <= S) as H1 by lia.
    assert (2 * Z.abs (z * S * D - m * T * D) <= S * D) as H2 by nia.
    assert (2 * (D * T) <= S * D) as H3 by nia.
    replace (z * (S * D)) with (z * S * D) by ring.
    replace (m * (D * T)) with (m * T * D) in Herr by ring.
    lia.
Qed.

Lemma round_after_rounding N D e :
  0 <= N -> 0 < D -> e <= 0 ->
  e + Z.max 0 (fexp 24 128 (Zdigits2 (N / D) + e) - e) <= 0 ->
  exists z,
    F32.round_half_away (binary_round_aux 24 128 false (N / D) e (loc_of N D)) = Some z /\
    0 <= z /\
    4 * Z.abs (z * (2 ^ (- e) * D) - N) <= 3 * (2 ^ (- e) * D).
Proof.
  intros HN HD He Hn.
  destruct (binary_round_aux_spec false N D e HN HD)
    as [m [Hm [Herr [[Hz Hm0] | [[Hinf Hbig] | [mf [ef [Hf Hcase]]]]]]]].
  - rewrite Hz. exists 0. split; [reflexivity|]. split; [lia|].
    apply (final_bound N D m (Z.max 0 (fexp 24 128 (Zdigits2 (N / D) + e) - e)) (- e));
      [lia | lia | exact Herr |].
    assert (0 < 2 ^ (- e)) by (apply Z.pow_pos_nonneg; lia).
    subst m. symmetry. apply Z.div_small. lia.
  - lia.
  - rewrite Hf. cbn [F32.round_half_away].
    set (n := Z.max 0 (fexp 24 128 (Zdigits2 (N / D) + e) - e)) in *.
    assert (0 <= n) as Hn0 by (subst n; lia).
    assert (0 < 2 ^ n) as Hpn by (apply Z.pow_pos_nonneg; lia).
    assert (0 < 2 ^ (- e)) as Hpk by (apply Z.pow_pos_nonneg; lia).
    assert (Zpos mf * 2 ^ (ef + - e) = m * 2 ^ n) as Hv.
    { destruct Hcase as [[-> <-] | [-> <-]].
      - f_equal. f_equal. lia.
      - replace (e + n + 1 + - e) with (Z.succ n) by lia.
        rewrite Z.pow_succ_r by lia. ring. }
    assert (0 <= ef + - e) as Hek by (destruct Hcase as [[-> _] | [-> _]]; lia).
    rewrite (round_magnitude_scaled mf ef (- e) ltac:(lia) Hek).
    eexists. split; [reflexivity|]. split.
    + apply Z.div_pos; [|lia].
      assert (0 <= Zpos mf * 2 ^ (ef + - e)) by (apply Z.mul_nonneg_nonneg; [lia|apply Z.pow_nonneg; lia]).
      lia.
    + apply (final_bound N D m n (- e)); [lia | lia | exact Herr |].
      now rewrite Hv.
Qed.

Lemma iter_xO_value p q : Zpos (Pos.iter xO p q) = Zpos p * 2 ^ Zpos q.
Proof.
  induction q as [|q IH] using Pos.peano_ind.
  - cbn. lia.
  - rewrite Pos.iter_succ, Pos2Z.inj_xO, IH, Pos2Z.inj_succ, Z.pow_succ_r by lia. ring.
Qed.

Lemma canonical_exact sx m e :
  fexp 24 128 (Zdigits2 (Zpos m) + e) = e -> e <= 104 ->
  binary_round_aux 24 128 sx (Zpos m) e loc_Exact = S754_finite sx m e.
Proof.
  intros Hc He. unfold binary_round_aux, shr_fexp.
  rewrite Hc, Z.sub_diag. cbn [shr shr_record_of_loc shr_m loc_of_shr_record round_nearest_even].
  rewrite Hc, Z.sub_diag. cbn [shr shr_record_of_loc shr_m].
  now rewrite (proj2 (Z.leb_le e (128 - 24)) He).
Qed.

Lemma of_int_exact H :
  0 < H < 2 ^ 24 ->
  exists mx ex,
    F32.of_int H = S754_finite false mx ex /\
    ex <= 0 /\ Zpos mx = H * 2 ^ (- ex) /\ 2 ^ 23 <= Zpos mx < 2 ^ 24.
Proof.
  intros [H0 H1]. destruct H as [|p|p]; try lia.
  unfold F32.of_int, F32.prec, F32.emax, binary_normalize, binary_round.
  pose proof (digits2_pos_bounds p) as B.
  assert (Zpos (digits2_pos p) <= 24) as Hd
    by (apply (Zdigits2_le (Zpos p) 24); lia).
  rewrite Z.add_0_r, fexp32.
  replace (Z.max (Zpos (digits2_pos p) - 24) (-149)) with (Zpos (digits2_pos p) - 24) by lia.
  unfold shl_align. rewrite Z.sub_0_r.
  destruct (Zpos (digits2_pos p) - 24) as [|q|q] eqn:E; try lia.
  - assert (Zpos (digits2_pos p) = 24) as E24 by lia.
    rewrite canonical_exact; [|cbn [Zdigits2]; rewrite E24; reflexivity | lia].
    exists p, 0. split; [reflexivity|]. split; [lia|].
    rewrite E24 in B. cbn in B |- *. lia.
  - assert (Zpos (Pos.iter xO p q) = Zpos p * 2 ^ Zpos q) as Hv by apply iter_xO_value.
    assert (0 < 2 ^ Zpos q) as Hq by (apply Z.pow_pos_nonneg; lia).
    assert (2 ^ 23 <= Zpos (Pos.iter xO p q) < 2 ^ 24) as Hb.
    { rewrite Hv.
      assert (2 ^ 23 = 2 ^ (Zpos (digits2_pos p) - 1) * 2 ^ Zpos q) as ->
        by (rewrite <- Z.pow_add_r by lia; f_equal; lia).
      assert (2 ^ 24 = 2 ^ Zpos (digits2_pos p) * 2 ^ Zpos q) as ->
        by (rewrite <- Z.pow_add_r by lia; f_equal; lia).
      nia. }
    rewrite canonical_exact.
    + exists (Pos.iter xO p q), (Zneg q). split; [reflexivity|].
      split; [lia|]. split; [exact Hv | exact Hb].
    + rewrite fexp32. rewrite (Zdigits2_unique _ 24); [lia | exact Hb | lia].
    + lia.
Qed.

Lemma two_power_Q (k : Z) : (0 <= k)%Z -> (2 ^ k == inject_Z (2 ^ k))%Q.
Proof. intros H. now rewrite Zpower_Qpower. Qed.

Lemma two_power_pos (e : Z) : (0 < 2 ^ e)%Q.
Proof. apply Qpower_0_lt. reflexivity. Qed.

Lemma two_power_add (a b : Z) : (2 ^ (a + b) == 2 ^ a * 2 ^ b)%Q.
Proof. apply Qpower_plus. discriminate. Qed.

Lemma two_power_neg (k : Z) : (0 <= k)%Z -> (2 ^ (- k) == / inject_Z (2 ^ k))%Q.
Proof. intros H. now rewrite Qpower_opp, Zpower_Qpower. Qed.

Lemma bound_to_Q (z N D k : Z) :
  (0 < D)%Z -> (0 <= k)%Z ->
  (4 * Z.abs (z * (2 ^ k * D) - N) <= 3 * (2 ^ k * D))%Z ->
  (Qabs (inject_Z z - inject_Z N / inject_Z D * 2 ^ (- k)) <= 3 # 4)%Q.
Proof.
  intros HD Hk H.
  assert (0 < 2 ^ k)%Z as Hp by (apply Z.pow_pos_nonneg; lia).
  rewrite two_power_neg by exact Hk.
  set (S := (2 ^ k)%Z) in *.
  assert (0 < inject_Z S)%Q as HS by (rewrite <- (Zlt_Qlt 0); exact Hp).
  assert (0 < inject_Z D)%Q as HDq by (rewrite <- (Zlt_Qlt 0); exact HD).
  assert (inject_Z z - inject_Z N / inject_Z D * / inject_Z S
          == (inject_Z z * (inject_Z S * inject_Z D) - inject_Z N)
             / (inject_Z S * inject_Z D))%Q as ->.
  { field. split; lra. }
  assert (0 < inject_Z S * inject_Z D)%Q as HSD
    by (apply Qmult_lt_0_compat; assumption).
  assert (inject_Z (4 * (z * (S * D) - N)) <= inject_Z (3 * (S * D)))%Q as Hu
    by (rewrite <- Zle_Qle; lia).
  assert (inject_Z (- (3 * (S * D))) <= inject_Z (4 * (z * (S * D) - N)))%Q as Hl
    by (rewrite <- Zle_Qle; lia).
  unfold Z.sub in Hu, Hl.
  repeat first [ rewrite inject_Z_mult in Hu | rewrite inject_Z_plus in Hu
               | rewrite inject_Z_opp in Hu ].
  repeat first [ rewrite inject_Z_mult in Hl | rewrite inject_Z_plus in Hl
               | rewrite inject_Z_opp in Hl ].
  change (inject_Z 4) with 4%Q in Hu, Hl. change (inject_Z 3) with 3%Q in Hu, Hl.
  apply Qabs_Qle_condition. split.
  - apply Qle_shift_div_l; [exact HSD|]. lra.
  - apply Qle_shift_div_r; [exact HSD|]. lra.
Qed.

Lemma scaled_int H m ex :
  ex <= 0 -> m = H * 2 ^ (- ex) -> (inject_Z H == inject_Z m * 2 ^ ex)%Q.
Proof.
  intros He ->.
  assert (0 < 2 ^ (- ex)) as Hp by (apply Z.pow_pos_nonneg; lia).
  assert (0 < inject_Z (2 ^ (- ex)))%Q as Hq by (rewrite <- (Zlt_Qlt 0); exact Hp).
  replace ex with (- - ex) at 2 by lia.
  rewrite two_power_neg by lia. rewrite inject_Z_mult. field. lra.
Qed.

Lemma magnitude_bound M e b :
  0 < M -> (inject_Z M * 2 ^ e < 2 ^ b)%Q -> Zdigits2 M + e <= b.
Proof.
  intros HM H. pose proof (Zdigits2_bounds M HM) as [B _].
  pose proof (Zdigits2_nonneg M) as Hd.
  assert (1 <= Zdigits2 M) as Hd1.
  { destruct (Z_lt_le_dec (Zdigits2 M) 1); [|lia].
    destruct M; cbn in *; lia. }
  assert (2 ^ (Zdigits2 M - 1 + e) < 2 ^ b)%Q as Hlt.
  { eapply Qle_lt_trans; [|exact H].
    rewrite two_power_add. apply Qmult_le_compat_r; [|apply Qlt_le_weak, two_power_pos].
    rewrite two_power_Q by lia. rewrite <- Zle_Qle. exact B. }
  apply Qpower_lt_compat_l_inv in Hlt; [lia | reflexivity].
Qed.

Lemma loc_of_exact N : loc_of N 1 = loc_Exact.
Proof. unfold loc_of. now rewrite Z.mod_1_r. Qed.

Lemma mul_rounds_within H ma ea :
  0 < H < 2 ^ 24 ->
  (inject_Z H * F32.to_Q (S754_finite false ma ea) < 2 ^ 24)%Q ->
  exists z,
    F32.round_half_away (F32.mul (F32.of_int H) (S754_finite false ma ea)) = Some z /\
    0 <= z /\
    (Qabs (inject_Z z - inject_Z H * F32.to_Q (S754_finite false ma ea)) <= 3 # 4)%Q.
Proof.
  intros HH HP.
  destruct (of_int_exact H HH) as [mx [ex [Hx [Hex [Hmx Hbx]]]]].
  rewrite Hx. unfold F32.mul, F32.prec, F32.emax.
  cbn [SFmul xorb F32.to_Q cond_Zopp] in *.
  set (N := Zpos mx * Zpos ma).
  set (e := ex + ea).
  assert (inject_Z H * (inject_Z (Zpos ma) * 2 ^ ea) == inject_Z N / inject_Z 1 * 2 ^ e)%Q as EP.
  { unfold N, e. rewrite (scaled_int H (Zpos mx) ex Hex Hmx).
    rewrite inject_Z_mult, two_power_add. field. }
  rewrite EP in HP.
  assert (0 < N) as HN by (unfold N; lia).
  assert (Zdigits2 N + e <= 24) as Hmag.
  { apply magnitude_bound; [exact HN|].
    eapply Qle_lt_trans; [|exact HP]. apply Qle_lteq. right. field. }
  assert (24 <= Zdigits2 N) as HdN.
  { destruct (Z_lt_le_dec (Zdigits2 N) 24) as [L|L]; [|exact L].
    pose proof (Zdigits2_bounds N HN) as [_ B].
    assert (2 ^ Zdigits2 N <= 2 ^ 23) by (apply Z.pow_le_mono_r; lia).
    assert (Zpos mx <= N) by (unfold N; nia). lia. }
  assert (binary_round_aux 24 128 false (Zpos (mx * ma)) e loc_Exact
          = binary_round_aux 24 128 false (N / 1) e (loc_of N 1)) as ->
    by (rewrite Z.div_1_r, loc_of_exact; reflexivity).
  destruct (round_after_rounding N 1 e) as [z [Hz [Hz0 Hb]]];
    [lia | lia | lia | rewrite Z.div_1_r, fexp32; lia |].
  exists z. split; [exact Hz|]. split; [exact Hz0|].
  rewrite EP. replace e with (- - e) by lia.
  apply bound_to_Q; [lia | lia | exact Hb].
Qed.

Lemma new_location_spec D r :
  0 < D -> 0 <= r < D ->
  new_location D r = if r =? 0 then loc_Exact else loc_Inexact (2 * r ?= D).
Proof.
  intros HD Hr. unfold new_location, new_location_even, new_location_odd.
  destruct (Z.even D) eqn:Ev; cbv beta; [reflexivity|].
  destruct (Z.eqb_spec r 0) as [E|E]; [reflexivity|].
    f_equal.
    assert (2 * r <> D) as Hne.
    { intros <-. rewrite Z.even_mul in Ev. discriminate. }
    destruct (Z.compare_spec (2 * r + 1) D), (Z.compare_spec (2 * r) D);
      try reflexivity; lia.
Qed.

Lemma div_core_spec m1 e1 m2 e2 :
  let e' := Z.min (fexp 24 128 (Zdigits2 (Zpos m1) + e1 - (Zdigits2 (Zpos m2) + e2)))
                  (e1 - e2) in
  let N := Zpos m1 * 2 ^ (e1 - e2 - e') in
  SFdiv_core_binary 24 128 (Zpos m1) e1 (Zpos m2) e2
    = (N / Zpos m2, e', loc_of N (Zpos m2)).
Proof.
  intros e' N. unfold SFdiv_core_binary. fold e'.
  assert (0 <= e1 - e2 - e') as Hs by (subst e'; lia).
  assert ((match e1 - e2 - e' with
           | 0 => Zpos m1
           | Zpos _ => Z.shiftl (Zpos m1) (e1 - e2 - e')
           | Zneg _ => 0
           end) = N) as ->.
  { subst N. destruct (e1 - e2 - e') as [|p|p] eqn:E; try lia.
    now rewrite Z.shiftl_mul_pow2 by lia. }
  pose proof (Z.mod_pos_bound N (Zpos m2) ltac:(lia)) as B.
  unfold loc_of. rewrite <- (new_location_spec (Zpos m2) (N mod Zpos m2)) by lia.
  unfold Z.div, Z.modulo.
  destruct (Z.div_eucl N (Zpos m2)) as [q r]. reflexivity.
Qed.

Lemma div_rounds_within W ma ea :
  0 < W < 2 ^ 24 ->
  (inject_Z W / F32.to_Q (S754_finite false ma ea) < 2 ^ 24)%Q ->
  exists z,
    F32.round_half_away (F32.div (F32.of_int W) (S754_finite false ma ea)) = Some z /\
    0 <= z /\
    (Qabs (inject_Z z - inject_Z W / F32.to_Q (S754_finite false ma ea)) <= 3 # 4)%Q.
Proof.
  intros HW HP.
  destruct (of_int_exact W HW) as [mx [ex [Hx [Hex [Hmx Hbx]]]]].
  rewrite Hx. unfold F32.div, F32.prec, F32.emax.
  cbn [SFdiv xorb F32.to_Q cond_Zopp] in *.
  rewrite div_core_spec.
  set (e := Z.min (fexp 24 128 (Zdigits2 (Zpos mx) + ex - (Zdigits2 (Zpos ma) + ea)))
                  (ex - ea)) in *.
  set (N := Zpos mx * 2 ^ (ex - ea - e)) in *.
  assert (0 <= ex - ea - e) as Hs by (subst e; lia).
  assert (0 < 2 ^ (ex - ea - e)) as Hps by (apply Z.pow_pos_nonneg; lia).
  assert (0 < N) as HN by (subst N; nia).
  assert (0 < inject_Z (Zpos ma))%Q as Hma by (rewrite <- (Zlt_Qlt 0); lia).
  pose proof (two_power_pos ea) as Hpa.
  pose proof (two_power_pos e) as Hpe.
  pose proof (two_power_pos ex) as Hpx.
  assert (2 ^ (ex - ea - e) * 2 ^ e * 2 ^ ea == 2 ^ ex)%Q as Epow.
  { rewrite <- !two_power_add. replace (ex - ea - e + e + ea) with ex by lia. reflexivity. }
  assert (inject_Z W / (inject_Z (Zpos ma) * 2 ^ ea)
          == inject_Z N / inject_Z (Zpos ma) * 2 ^ e)%Q as EP.
  { unfold N. rewrite (scaled_int W (Zpos mx) ex Hex Hmx).
    rewrite inject_Z_mult, <- (two_power_Q (ex - ea - e)) by lia.
    rewrite <- Epow. field. split; lra. }
  rewrite EP in HP.
  (* the exponent of the quotient is not positive *)
  assert (Zdigits2 (Zpos mx) = 24) as Hdx by (apply Zdigits2_unique; lia).
  assert (ex - (Zdigits2 (Zpos ma) + ea) <= 0) as Hexp.
  { pose proof (Zdigits2_bounds (Zpos ma) ltac:(lia)) as [_ Ba].
    pose proof (Zdigits2_nonneg (Zpos ma)) as Hda.
    assert (inject_Z (Zpos ma) < 2 ^ Zdigits2 (Zpos ma))%Q as Ba'
      by (rewrite two_power_Q by lia; rewrite <- Zlt_Qlt; exact Ba).
    assert (2 ^ (23 + ex) <= inject_Z (Zpos mx) * 2 ^ ex)%Q as Bx.
    { rewrite two_power_add. apply Qmult_le_compat_r; [|lra].
      rewrite two_power_Q by lia. rewrite <- Zle_Qle. lia. }
    assert (inject_Z (Zpos mx) * 2 ^ ex
            < 2 ^ (24 + (Zdigits2 (Zpos ma) + ea)))%Q as Bw.
    { rewrite <- (scaled_int W (Zpos mx) ex Hex Hmx).
      rewrite <- EP in HP.
      set (A := (inject_Z (Zpos ma) * 2 ^ ea)%Q) in *.
      assert (0 < A)%Q as HA by (apply Qmult_lt_0_compat; assumption).
      assert (inject_Z W == inject_Z W / A * A)%Q as -> by (field; lra).
      apply Qlt_trans with (2 ^ 24 * A)%Q.
      - apply Qmult_lt_compat_r; assumption.
      - rewrite (two_power_add 24), (two_power_add (Zdigits2 (Zpos ma))).
        apply Qmult_lt_l; [apply two_power_pos|].
        apply Qmult_lt_compat_r; assumption. }
    assert (2 ^ (23 + ex) < 2 ^ (24 + (Zdigits2 (Zpos ma) + ea)))%Q as Hlt
      by (eapply Qle_lt_trans; eassumption).
    apply Qpower_lt_compat_l_inv in Hlt; [lia | reflexivity]. }
  assert (e <= 0) as He by (subst e; rewrite fexp32, Hdx; lia).
  assert (Zdigits2 (N / Zpos ma) + e <= 24) as Hmag.
  { assert (0 <= N / Zpos ma) as Hq0 by (apply Z.div_pos; lia).
    destruct (Z.eq_dec (N / Zpos ma) 0) as [->|Hq]; [cbn; lia|].
    apply magnitude_bound; [lia|].
    eapply Qle_lt_trans; [|exact HP].
    apply Qmult_le_compat_r; [|lra].
    apply Qle_shift_div_l; [exact Hma|].
    rewrite <- inject_Z_mult, <- Zle_Qle.
    rewrite Z.mul_comm. apply Z.mul_div_le. lia. }
  destruct (round_after_rounding N (Zpos ma) e) as [z [Hz [Hz0 Hb]]];
    [lia | lia | exact He | rewrite fexp32; lia |].
  exists z. split; [exact Hz|]. split; [exact Hz0|].
  rewrite EP. replace e with (- - e) by lia.
  apply bound_to_Q; [lia | lia | exact Hb].
Qed.

End Binary32Facts.

(** * Properties of [ApplyAspect] *)

Section Correction.

Variable lu : F32.float -> Z.

Lemma RoundToInt_in_range v : Int32.in_range (RoundToInt lu v).
Proof.
  unfold RoundToInt, lround.
  destruct (F32.round_half_away v) as [z|]; [|apply Int32Facts.wrap_in_range].
  destruct ((Int32.min_signed <=? z) && (z <=? Int32.max_signed)) eqn:E;
    [|apply Int32Facts.wrap_in_range].
  apply andb_true_iff in E. destruct E as [E1 E2].
  apply Z.leb_le in E1, E2. now split.
Qed.

Lemma rect_width_in_range r : Int32.in_range (rect_width r).
Proof. apply Int32Facts.wrap_in_range. Qed.

Lemma rect_height_in_range r : Int32.in_range (rect_height r).
Proof. apply Int32Facts.wrap_in_range. Qed.

Lemma setHeightFromWidth_in_range s r newW :
  Int32.in_range (setHeightFromWidth lu s (rect_height r) newW).
Proof.
  unfold setHeightFromWidth. cbv zeta.
  destruct (0 <? _); [apply RoundToInt_in_range | apply rect_height_in_range].
Qed.

Lemma setWidthFromHeight_in_range s r newH :
  Int32.in_range (setWidthFromHeight lu s (rect_width r) newH).
Proof.
  unfold setWidthFromHeight. cbv zeta.
  destruct (0 <? _); [apply RoundToInt_in_range | apply rect_width_in_range].
Qed.

(** Past the three guards [ApplyAspect] is its [switch]. *)
Ltac past_guards Hg Hw Hh :=
  unfold ApplyAspect;
  rewrite (positive_not_leb_zero _ Hg);
  rewrite (proj2 (Z.leb_gt _ _) Hw), (proj2 (Z.leb_gt _ _) Hh);
  cbn [orb].

Ltac pick_case :=
  cbv [WMSZ_LEFT WMSZ_RIGHT WMSZ_TOP WMSZ_TOPLEFT WMSZ_TOPRIGHT WMSZ_BOTTOM
       WMSZ_BOTTOMLEFT WMSZ_BOTTOMRIGHT Z.eqb Pos.eqb orb].

Section PastGuards.

Variables (s : LockState) (r : RECT) (edge : Z).
Hypothesis Hg : F32.ltb F32.zero (g_aspect s) = true.
Hypothesis Hw : 0 < rect_width r.
Hypothesis Hh : 0 < rect_height r.

Lemma horizontal_edge :
  edge = WMSZ_TOP \/ edge = WMSZ_BOTTOM ->
  ApplyAspect lu s (Some r) edge =
    Some (set_right r (Int32.add (left r)
            (setWidthFromHeight lu s (rect_width r) (rect_height r)))).
Proof.
  past_guards Hg Hw Hh. intros [-> | ->]; pick_case; reflexivity.
Qed.

Lemma vertical_edge :
  edge = WMSZ_LEFT \/ edge = WMSZ_RIGHT ->
  ApplyAspect lu s (Some r) edge =
    Some (set_bottom r (Int32.add (top r)
            (setHeightFromWidth lu s (rect_height r) (rect_width r)))).
Proof.
  past_guards Hg Hw Hh. intros [-> | ->]; pick_case; reflexivity.
Qed.

Lemma other_edge_value :
  ~ (WMSZ_LEFT <= edge <= WMSZ_BOTTOMRIGHT) ->
  ApplyAspect lu s (Some r) edge = Some r.
Proof.
  unfold WMSZ_LEFT, WMSZ_BOTTOMRIGHT. intros Hout. past_guards Hg Hw Hh.
  unfold WMSZ_LEFT, WMSZ_RIGHT, WMSZ_TOP, WMSZ_TOPLEFT, WMSZ_TOPRIGHT,
    WMSZ_BOTTOM, WMSZ_BOTTOMLEFT, WMSZ_BOTTOMRIGHT.
  repeat match goal with
         | |- context [edge =? ?k] =>
             rewrite (proj2 (Z.eqb_neq edge k)) by lia
         end.
  reflexivity.
Qed.

Lemma corner_by_width_top :
  driveByWidth s (rect_width r) (rect_height r) = true ->
  edge = WMSZ_TOPLEFT \/ edge = WMSZ_TOPRIGHT ->
  ApplyAspect lu s (Some r) edge =
    Some (set_top r (Int32.sub (bottom r)
            (setHeightFromWidth lu s (rect_height r) (rect_width r)))).
Proof.
  intros Hd. past_guards Hg Hw Hh. rewrite Hd.
  intros [-> | ->]; pick_case; reflexivity.
Qed.

Lemma corner_by_width_bottom :
  driveByWidth s (rect_width r) (rect_height r) = true ->
  edge = WMSZ_BOTTOMLEFT \/ edge = WMSZ_BOTTOMRIGHT ->
  ApplyAspect lu s (Some r) edge =
    Some (set_bottom r (Int32.add (top r)
            (setHeightFromWidth lu s (rect_height r) (rect_width r)))).
Proof.
  intros Hd. past_guards Hg Hw Hh. rewrite Hd.
  intros [-> | ->]; pick_case; reflexivity.
Qed.

Lemma corner_by_height_left :
  driveByWidth s (rect_width r) (rect_height r) = false ->
  edge = WMSZ_TOPLEFT \/ edge = WMSZ_BOTTOMLEFT ->
  ApplyAspect lu s (Some r) edge =
    Some (set_left r (Int32.sub (right r)
            (setWidthFromHeight lu s (rect_width r) (rect_height r)))).
Proof.
  intros Hd. past_guards Hg Hw Hh. rewrite Hd.
  intros [-> | ->]; pick_case; reflexivity.
Qed.

Lemma corner_by_height_right :
  driveByWidth s (rect_width r) (rect_height r) = false ->
  edge = WMSZ_TOPRIGHT \/ edge = WMSZ_BOTTOMRIGHT ->
  ApplyAspect lu s (Some r) edge =
    Some (set_right r (Int32.add (left r)
            (setWidthFromHeight lu s (rect_width r) (rect_height r)))).
Proof.
  intros Hd. past_guards Hg Hw Hh. rewrite Hd.
  intros [-> | ->]; pick_case; reflexivity.
Qed.

End PastGuards.

(** Writing an unchanged dimension back leaves the rectangle as it was. *)
Lemma keep_right r :
  rect_in_range r -> set_right r (Int32.add (left r) (rect_width r)) = r.
Proof.
  intros (_ & _ & Hr & _). unfold rect_width, set_right.
  rewrite Int32Facts.add_sub_cancel by exact Hr. now destruct r.
Qed.

Lemma keep_left r :
  rect_in_range r -> set_left r (Int32.sub (right r) (rect_width r)) = r.
Proof.
  intros (Hl & _). unfold rect_width, set_left.
  rewrite Int32Facts.sub_sub_cancel by exact Hl. now destruct r.
Qed.

Lemma keep_bottom r :
  rect_in_range r -> set_bottom r (Int32.add (top r) (rect_height r)) = r.
Proof.
  intros (_ & _ & _ & Hb). unfold rect_height, set_bottom.
  rewrite Int32Facts.add_sub_cancel by exact Hb. now destruct r.
Qed.

Lemma keep_top r :
  rect_in_range r -> set_top r (Int32.sub (bottom r) (rect_height r)) = r.
Proof.
  intros (_ & Ht & _). unfold rect_height, set_top.
  rewrite Int32Facts.sub_sub_cancel by exact Ht. now destruct r.
Qed.

Lemma setWidthFromHeight_rejected s w newH :
  RoundToInt lu (F32.mul (F32.of_int newH) (g_aspect s)) <= 0 ->
  setWidthFromHeight lu s w newH = w.
Proof.
  intros H. unfold setWidthFromHeight. cbv zeta.
  now rewrite (proj2 (Z.ltb_ge _ _) H).
Qed.

Lemma setWidthFromHeight_accepted s w newH :
  0 < RoundToInt lu (F32.mul (F32.of_int newH) (g_aspect s)) ->
  setWidthFromHeight lu s w newH
    = RoundToInt lu (F32.mul (F32.of_int newH) (g_aspect s)).
Proof.
  intros H. unfold setWidthFromHeight. cbv zeta.
  now rewrite (proj2 (Z.ltb_lt _ _) H).
Qed.

Lemma setHeightFromWidth_rejected s h newW :
  RoundToInt lu (F32.div (F32.of_int newW) (g_aspect s)) <= 0 ->
  setHeightFromWidth lu s h newW = h.
Proof.
  intros H. unfold setHeightFromWidth. cbv zeta.
  now rewrite (proj2 (Z.ltb_ge _ _) H).
Qed.

Lemma setHeightFromWidth_accepted s h newW :
  0 < RoundToInt lu (F32.div (F32.of_int newW) (g_aspect s)) ->
  setHeightFromWidth lu s h newW
    = RoundToInt lu (F32.div (F32.of_int newW) (g_aspect s)).
Proof.
  intros H. unfold setHeightFromWidth. cbv zeta.
  now rewrite (proj2 (Z.ltb_lt _ _) H).
Qed.

Lemma corner_cases edge :
  is_corner edge ->
  (edge = WMSZ_TOPLEFT \/ edge = WMSZ_TOPRIGHT) \/
  (edge = WMSZ_BOTTOMLEFT \/ edge = WMSZ_BOTTOMRIGHT).
Proof. unfold is_corner. tauto. Qed.

Lemma corner_sides edge :
  is_corner edge ->
  (edge = WMSZ_TOPLEFT \/ edge = WMSZ_BOTTOMLEFT) \/
  (edge = WMSZ_TOPRIGHT \/ edge = WMSZ_BOTTOMRIGHT).
Proof. unfold is_corner. tauto. Qed.

(** C8: when the current width or the current height is not positive, or
    the stored ratio is [<= 0], [ApplyAspect] returns with the rectangle as
    it was, for every edge value; the handler still answers [TRUE] and has
    no error to report. *)
Theorem C8_guards_leave_rect_unmodified s r edge :
  rect_width r <= 0 \/ rect_height r <= 0 \/
  F32.leb (g_aspect s) F32.zero = true ->
  ApplyAspect lu s (Some r) edge = Some r /\
  SubclassProc lu s WM_SIZING edge (Some r) kSubclassId = Handled 1 (Some r).
Proof.
  intros H.
  assert (ApplyAspect lu s (Some r) edge = Some r) as HA.
  { unfold ApplyAspect.
    destruct (F32.leb (g_aspect s) F32.zero); [reflexivity|].
    destruct H as [H | [H | H]]; [| |discriminate].
    - now rewrite (proj2 (Z.leb_le _ _) H).
    - rewrite (proj2 (Z.leb_le (rect_height r) 0) H).
      now rewrite orb_true_r. }
  split; [exact HA|].
  unfold SubclassProc. rewrite !Z.eqb_refl. cbn [negb]. now rewrite HA.
Qed.

(** C7: on a rectangle of positive width and height and a positive stored
    ratio, when the dimension derived on the path of the dragged edge
    rounds to [<= 0], all four edges come back as they were.  The derived
    dimension is the width for Top, Bottom and a height-driven corner, and
    the height for Left, Right and a width-driven corner; any other edge
    value derives nothing and leaves the rectangle as it was. *)
Theorem C7_rejected_dimension_keeps_rect s r edge :
  rect_in_range r ->
  0 < rect_width r -> 0 < rect_height r ->
  F32.ltb F32.zero (g_aspect s) = true ->
  let w := rect_width r in
  let h := rect_height r in
  ((edge = WMSZ_TOP \/ edge = WMSZ_BOTTOM \/
    (is_corner edge /\ driveByWidth s w h = false)) ->
   RoundToInt lu (F32.mul (F32.of_int h) (g_aspect s)) <= 0 ->
   ApplyAspect lu s (Some r) edge = Some r) /\
  ((edge = WMSZ_LEFT \/ edge = WMSZ_RIGHT \/
    (is_corner edge /\ driveByWidth s w h = true)) ->
   RoundToInt lu (F32.div (F32.of_int w) (g_aspect s)) <= 0 ->
   ApplyAspect lu s (Some r) edge = Some r) /\
  (~ (WMSZ_LEFT <= edge <= WMSZ_BOTTOMRIGHT) ->
   ApplyAspect lu s (Some r) edge = Some r).
Proof.
  intros Hr Hw Hh Hg w h. subst w h.
  split; [|split]; [intros Hcase Hle | intros Hcase Hle |].
  3:{ intros Hout. apply other_edge_value; assumption. }
  - assert (edge = WMSZ_TOP \/ edge = WMSZ_BOTTOM \/
            (is_corner edge /\
             driveByWidth s (rect_width r) (rect_height r) = false)) as Hc
      by exact Hcase.
    destruct Hc as [E | [E | [Hc Hd]]].
    + rewrite (horizontal_edge s r edge Hg Hw Hh) by tauto.
      rewrite setWidthFromHeight_rejected by exact Hle.
      now rewrite keep_right.
    + rewrite (horizontal_edge s r edge Hg Hw Hh) by tauto.
      rewrite setWidthFromHeight_rejected by exact Hle.
      now rewrite keep_right.
    + destruct (corner_sides edge Hc) as [E | E].
      * rewrite (corner_by_height_left s r edge Hg Hw Hh Hd E).
        rewrite setWidthFromHeight_rejected by exact Hle.
        now rewrite keep_left.
      * rewrite (corner_by_height_right s r edge Hg Hw Hh Hd E).
        rewrite setWidthFromHeight_rejected by exact Hle.
        now rewrite keep_right.
  - destruct Hcase as [E | [E | [Hc Hd]]].
    + rewrite (vertical_edge s r edge Hg Hw Hh) by tauto.
      rewrite setHeightFromWidth_rejected by exact Hle.
      now rewrite keep_bottom.
    + rewrite (vertical_edge s r edge Hg Hw Hh) by tauto.
      rewrite setHeightFromWidth_rejected by exact Hle.
      now rewrite keep_bottom.
    + destruct (corner_cases edge Hc) as [E | E].
      * rewrite (corner_by_width_top s r edge Hg Hw Hh Hd E).
        rewrite setHeightFromWidth_rejected by exact Hle.
        now rewrite keep_top.
      * rewrite (corner_by_width_bottom s r edge Hg Hw Hh Hd E).
        rewrite setHeightFromWidth_rejected by exact Hle.
        now rewrite keep_bottom.
Qed.

(** C6: a corner drag moves one edge only, on a side the corner names.
    Width-driven: TopLeft and TopRight set [top = bottom - newHeight],
    BottomLeft and BottomRight set [bottom = top + newHeight].
    Height-driven: TopLeft and BottomLeft set [left = right - newWidth],
    TopRight and BottomRight set [right = left + newWidth].  The three
    other edges keep their values. *)
Theorem C6_corner_moves_one_named_edge s r edge :
  0 < rect_width r -> 0 < rect_height r ->
  F32.ltb F32.zero (g_aspect s) = true ->
  let newH := setHeightFromWidth lu s (rect_height r) (rect_width r) in
  let newW := setWidthFromHeight lu s (rect_width r) (rect_height r) in
  (driveByWidth s (rect_width r) (rect_height r) = true ->
   (edge = WMSZ_TOPLEFT \/ edge = WMSZ_TOPRIGHT ->
    ApplyAspect lu s (Some r) edge
      = Some (mkRECT (left r) (Int32.sub (bottom r) newH) (right r) (bottom r)))
   /\
   (edge = WMSZ_BOTTOMLEFT \/ edge = WMSZ_BOTTOMRIGHT ->
    ApplyAspect lu s (Some r) edge
      = Some (mkRECT (left r) (top r) (right r) (Int32.add (top r) newH))))
  /\
  (driveByWidth s (rect_width r) (rect_height r) = false ->
   (edge = WMSZ_TOPLEFT \/ edge = WMSZ_BOTTOMLEFT ->
    ApplyAspect lu s (Some r) edge
      = Some (mkRECT (Int32.sub (right r) newW) (top r) (right r) (bottom r)))
   /\
   (edge = WMSZ_TOPRIGHT \/ edge = WMSZ_BOTTOMRIGHT ->
    ApplyAspect lu s (Some r) edge
      = Some (mkRECT (left r) (top r) (Int32.add (left r) newW) (bottom r)))).
Proof.
  intros Hw Hh Hg newH newW. subst newH newW.
  split; intros Hd; split; intros E.
  - apply (corner_by_width_top s r edge Hg Hw Hh Hd E).
  - apply (corner_by_width_bottom s r edge Hg Hw Hh Hd E).
  - apply (corner_by_height_left s r edge Hg Hw Hh Hd E).
  - apply (corner_by_height_right s r edge Hg Hw Hh Hd E).
Qed.

(** The dimensions of a rectangle one edge of which was rewritten. *)
Lemma height_after_set_top r n :
  Int32.in_range n ->
  rect_height (set_top r (Int32.sub (bottom r) n)) = n /\
  rect_width (set_top r (Int32.sub (bottom r) n)) = rect_width r.
Proof.
  intros H. split; [|reflexivity].
  unfold rect_height, set_top. cbn [top bottom].
  now apply Int32Facts.sub_sub_cancel.
Qed.

Lemma height_after_set_bottom r n :
  Int32.in_range n ->
  rect_height (set_bottom r (Int32.add (top r) n)) = n /\
  rect_width (set_bottom r (Int32.add (top r) n)) = rect_width r.
Proof.
  intros H. split; [|reflexivity].
  unfold rect_height, set_bottom. cbn [top bottom].
  now apply Int32Facts.sub_add_cancel.
Qed.

Lemma width_after_set_left r n :
  Int32.in_range n ->
  rect_width (set_left r (Int32.sub (right r) n)) = n /\
  rect_height (set_left r (Int32.sub (right r) n)) = rect_height r.
Proof.
  intros H. split; [|reflexivity].
  unfold rect_width, set_left. cbn [left right].
  now apply Int32Facts.sub_sub_cancel.
Qed.

Lemma width_after_set_right r n :
  Int32.in_range n ->
  rect_width (set_right r (Int32.add (left r) n)) = n /\
  rect_height (set_right r (Int32.add (left r) n)) = rect_height r.
Proof.
  intros H. split; [|reflexivity].
  unfold rect_width, set_right. cbn [left right].
  now apply Int32Facts.sub_add_cancel.
Qed.

(** C5 (amended): on a corner drag of a rectangle of positive width [W]
    and height [H] with a positive ratio [r], with [errH = |W/r - H|] and
    [errW = |H*r - W|] in binary32.  When [errH < errW] the drag is
    width-driven: [left], [right] and the width are kept, and the height
    becomes [round(W / r)] when that is positive and stays [H] otherwise.
    When not [errH < errW] (ties included) it is height-driven: [top],
    [bottom] and the height are kept, and the width becomes [round(H * r)]
    when that is positive and stays [W] otherwise.
    For [W = 1600], [H = 850], [r = 16/9]: [errH] is 50, [errW] lies
    between 88 and 89, the decision is width-driven and the new height is
    [round(1600 / (16/9)) = 900].  For [W = 900], [H = 1500], [r = 9/16]
    the decision is height-driven and the new width is
    [round(1500 * 9/16) = 844].  For [W = 100], [H = 102], [r = 1] the two
    errors are equal and the decision is height-driven: the width becomes
    102. *)
Theorem C5_corner_decision :
  (forall s r edge,
     0 < rect_width r -> 0 < rect_height r ->
     F32.ltb F32.zero (g_aspect s) = true ->
     is_corner edge ->
     let w := rect_width r in
     let h := rect_height r in
     let errH :=
       F32.fabs (F32.sub (F32.div (F32.of_int w) (g_aspect s)) (F32.of_int h)) in
     let errW :=
       F32.fabs (F32.sub (F32.mul (F32.of_int h) (g_aspect s)) (F32.of_int w)) in
     let roundedH := RoundToInt lu (F32.div (F32.of_int w) (g_aspect s)) in
     let roundedW := RoundToInt lu (F32.mul (F32.of_int h) (g_aspect s)) in
     exists r',
       ApplyAspect lu s (Some r) edge = Some r' /\
       (F32.ltb errH errW = true ->
        left r' = left r /\ right r' = right r /\ rect_width r' = w /\
        (0 < roundedH -> rect_height r' = roundedH) /\
        (roundedH <= 0 -> rect_height r' = h)) /\
       (F32.ltb errH errW = false ->
        top r' = top r /\ bottom r' = bottom r /\ rect_height r' = h /\
        (0 < roundedW -> rect_width r' = roundedW) /\
        (roundedW <= 0 -> rect_width r' = w)))
  /\
  (forall edge,
     is_corner edge ->
     let g := F32.div f16 f9 in
     let errH :=
       F32.fabs (F32.sub (F32.div (F32.of_int 1600) g) (F32.of_int 850)) in
     let errW :=
       F32.fabs (F32.sub (F32.mul (F32.of_int 850) g) (F32.of_int 1600)) in
     errH = F32.of_int 50 /\
     F32.ltb (F32.of_int 88) errW = true /\
     F32.ltb errW (F32.of_int 89) = true /\
     F32.ltb errH errW = true /\
     RoundToInt lu (F32.div (F32.of_int 1600) g) = 900 /\
     exists r',
       ApplyAspect lu installed_16_9 (Some (mkRECT 0 0 1600 850)) edge = Some r' /\
       rect_width r' = 1600 /\ rect_height r' = 900)
  /\
  (forall edge,
     is_corner edge ->
     let g := F32.div f9 f16 in
     let errH :=
       F32.fabs (F32.sub (F32.div (F32.of_int 900) g) (F32.of_int 1500)) in
     let errW :=
       F32.fabs (F32.sub (F32.mul (F32.of_int 1500) g) (F32.of_int 900)) in
     F32.ltb errH errW = false /\
     RoundToInt lu (F32.mul (F32.of_int 1500) g) = 844 /\
     exists r',
       ApplyAspect lu portrait_9_16 (Some (mkRECT 0 0 900 1500)) edge = Some r' /\
       rect_width r' = 844 /\ rect_height r' = 1500)
  /\
  (forall edge,
     is_corner edge ->
     let g := F32.div (F32.of_int 1) (F32.of_int 1) in
     let errH :=
       F32.fabs (F32.sub (F32.div (F32.of_int 100) g) (F32.of_int 102)) in
     let errW :=
       F32.fabs (F32.sub (F32.mul (F32.of_int 102) g) (F32.of_int 100)) in
     errH = errW /\ F32.ltb errH errW = false /\
     exists r',
       ApplyAspect lu ratio_1_1 (Some (mkRECT 0 0 100 102)) edge = Some r' /\
       rect_width r' = 102 /\ rect_height r' = 102).
Proof.
  split; [|split; [|split]].
  - intros s r edge Hw Hh Hg Hc w h errH errW roundedH roundedW.
    subst w h errH errW roundedH roundedW.
    change (F32.ltb _ _) with (driveByWidth s (rect_width r) (rect_height r)).
    pose proof (setHeightFromWidth_in_range s r (rect_width r)) as HinH.
    pose proof (setWidthFromHeight_in_range s r (rect_height r)) as HinW.
    destruct (driveByWidth s (rect_width r) (rect_height r)) eqn:Hd.
    + assert (exists r',
                ApplyAspect lu s (Some r) edge = Some r' /\
                left r' = left r /\ right r' = right r /\
                rect_width r' = rect_width r /\
                rect_height r'
                  = setHeightFromWidth lu s (rect_height r) (rect_width r))
        as (r' & Hr' & Hl & Hrt & Hwd & Hht).
      { destruct (corner_cases edge Hc) as [E | E].
        - eexists. split; [apply (corner_by_width_top s r edge Hg Hw Hh Hd E)|].
          destruct (height_after_set_top r _ HinH). now repeat split.
        - eexists. split; [apply (corner_by_width_bottom s r edge Hg Hw Hh Hd E)|].
          destruct (height_after_set_bottom r _ HinH). now repeat split. }
      exists r'. split; [exact Hr'|]. split; [intros _ | discriminate].
      repeat split; try assumption; intros Hround; rewrite Hht.
      * now apply setHeightFromWidth_accepted.
      * now apply setHeightFromWidth_rejected.
    + assert (exists r',
                ApplyAspect lu s (Some r) edge = Some r' /\
                top r' = top r /\ bottom r' = bottom r /\
                rect_height r' = rect_height r /\
                rect_width r'
                  = setWidthFromHeight lu s (rect_width r) (rect_height r))
        as (r' & Hr' & Ht & Hb & Hht & Hwd).
      { destruct (corner_sides edge Hc) as [E | E].
        - eexists. split; [apply (corner_by_height_left s r edge Hg Hw Hh Hd E)|].
          destruct (width_after_set_left r _ HinW). now repeat split.
        - eexists. split; [apply (corner_by_height_right s r edge Hg Hw Hh Hd E)|].
          destruct (width_after_set_right r _ HinW). now repeat split. }
      exists r'. split; [exact Hr'|]. split; [discriminate | intros _].
      repeat split; try assumption; intros Hround; rewrite Hwd.
      * now apply setWidthFromHeight_accepted.
      * now apply setWidthFromHeight_rejected.
  - intros edge Hc g errH errW. subst g errH errW.
    repeat (split; [vm_compute; reflexivity|]).
    destruct Hc as [-> | [-> | [-> | ->]]];
      eexists; (split; [vm_compute; reflexivity|]); split; reflexivity.
  - intros edge Hc g errH errW. subst g errH errW.
    repeat (split; [vm_compute; reflexivity|]).
    destruct Hc as [-> | [-> | [-> | ->]]];
      eexists; (split; [vm_compute; reflexivity|]); split; reflexivity.
  - intros edge Hc g errH errW. subst g errH errW.
    repeat (split; [vm_compute; reflexivity|]).
    destruct Hc as [-> | [-> | [-> | ->]]];
      eexists; (split; [vm_compute; reflexivity|]); split; reflexivity.
Qed.

(** C4 (amended): on a Top or Bottom drag of a rectangle of positive width
    and height [H] with a positive ratio [r], when [round(H * r)] is
    positive the rectangle keeps [left], [top] and [bottom] and gets
    [right = left + round(H * r)], so that its width is [round(H * r)] and
    its height is [H].  For (0,0,1600,800) and [r = 16/9] the result is
    (0,0,1422,800). *)
Theorem C4_horizontal_edge_derives_width :
  (forall s r edge,
     0 < rect_width r -> 0 < rect_height r ->
     F32.ltb F32.zero (g_aspect s) = true ->
     edge = WMSZ_TOP \/ edge = WMSZ_BOTTOM ->
     let newW := RoundToInt lu (F32.mul (F32.of_int (rect_height r)) (g_aspect s)) in
     0 < newW ->
     exists r',
       ApplyAspect lu s (Some r) edge = Some r' /\
       r' = mkRECT (left r) (top r) (Int32.add (left r) newW) (bottom r) /\
       rect_width r' = newW /\ rect_height r' = rect_height r)
  /\
  (forall edge,
     edge = WMSZ_TOP \/ edge = WMSZ_BOTTOM ->
     RoundToInt lu (F32.mul (F32.of_int 800) (F32.div f16 f9)) = 1422 /\
     ApplyAspect lu installed_16_9 (Some (mkRECT 0 0 1600 800)) edge
       = Some (mkRECT 0 0 1422 800)).
Proof.
  split.
  - intros s r edge Hw Hh Hg E newW Hpos. subst newW.
    eexists. split; [apply (horizontal_edge s r edge Hg Hw Hh E)|].
    rewrite setWidthFromHeight_accepted by exact Hpos.
    split; [reflexivity|].
    apply width_after_set_right, RoundToInt_in_range.
  - intros edge [-> | ->]; split; vm_compute; reflexivity.
Qed.

(** ** The derived dimension against the ideal one *)

Lemma rounding_fits z P :
  (Qabs (inject_Z z - P) <= 3 # 4)%Q -> (P < 2 ^ 24)%Q -> z <= 2 ^ 24.
Proof.
  intros Hb HP. apply Qabs_Qle_condition in Hb. destruct Hb as [_ Hb].
  rewrite (Binary32Facts.two_power_Q 24) in HP by lia.
  assert (inject_Z z < inject_Z (2 ^ 24 + 1))%Q as Hlt.
  { rewrite inject_Z_plus. change (inject_Z 1) with 1%Q. lra. }
  rewrite <- Zlt_Qlt in Hlt. lia.
Qed.

Lemma RoundToInt_of_rounding v z :
  F32.round_half_away v = Some z -> 0 <= z <= 2 ^ 24 -> RoundToInt lu v = z.
Proof.
  intros Hv Hz. unfold RoundToInt, lround. rewrite Hv.
  assert ((Int32.min_signed <=? z) && (z <=? Int32.max_signed) = true) as ->.
  { apply andb_true_iff. unfold Int32.min_signed, Int32.max_signed.
    split; apply Z.leb_le; lia. }
  reflexivity.
Qed.

Lemma RoundToInt_mul_within H ma ea :
  0 < H < 2 ^ 24 ->
  (inject_Z H * F32.to_Q (S754_finite false ma ea) < 2 ^ 24)%Q ->
  within_one_pixel
    (RoundToInt lu (F32.mul (F32.of_int H) (S754_finite false ma ea)))
    (inject_Z H * F32.to_Q (S754_finite false ma ea)).
Proof.
  intros HH HP.
  destruct (Binary32Facts.mul_rounds_within H ma ea HH HP) as [z [Hz [Hz0 Hb]]].
  rewrite (RoundToInt_of_rounding _ z Hz)
    by (split; [exact Hz0 | exact (rounding_fits z _ Hb HP)]).
  unfold within_one_pixel. eapply Qle_lt_trans; [exact Hb | reflexivity].
Qed.

Lemma RoundToInt_div_within W ma ea :
  0 < W < 2 ^ 24 ->
  (inject_Z W / F32.to_Q (S754_finite false ma ea) < 2 ^ 24)%Q ->
  within_one_pixel
    (RoundToInt lu (F32.div (F32.of_int W) (S754_finite false ma ea)))
    (inject_Z W / F32.to_Q (S754_finite false ma ea)).
Proof.
  intros HW HP.
  destruct (Binary32Facts.div_rounds_within W ma ea HW HP) as [z [Hz [Hz0 Hb]]].
  rewrite (RoundToInt_of_rounding _ z Hz)
    by (split; [exact Hz0 | exact (rounding_fits z _ Hb HP)]).
  unfold within_one_pixel. eapply Qle_lt_trans; [exact Hb | reflexivity].
Qed.

Lemma ApplyAspect_returns_rect s r edge :
  exists r', ApplyAspect lu s (Some r) edge = Some r'.
Proof.
  unfold ApplyAspect.
  repeat match goal with
         | |- context [if ?c then _ else _] => destruct c
         end; eexists; reflexivity.
Qed.

(** C1 (amended): after an [Install(aspectWidth, aspectHeight)] that
    succeeds from the uninstalled state and stores a finite positive ratio
    [a], the WM_SIZING handler maps every rectangle of width [W] and height
    [H] between 1 and [2^24 - 1] to a rectangle such that, whenever the
    derived dimension rounds to a positive value and the ideal dimension is
    below [2^24]: on Top, Bottom and a height-driven corner the height is
    still [H] and the width is within one pixel of [H * a]; on Left, Right
    and a width-driven corner the width is still [W] and the height is
    within one pixel of [W / a]. *)
Theorem C1_derived_dimension_within_one_pixel
    s0 w aw ah s w' r edge ma ea :
  g_installed s0 = false ->
  UnityAspectLock_Install s0 w aw ah = (1, s, w') ->
  F32.div aw ah = S754_finite false ma ea ->
  0 < rect_width r < 2 ^ 24 ->
  0 < rect_height r < 2 ^ 24 ->
  let W := rect_width r in
  let H := rect_height r in
  let a := F32.to_Q (F32.div aw ah) in
  exists r',
    SubclassProc lu s WM_SIZING edge (Some r) kSubclassId = Handled 1 (Some r') /\
    ((edge = WMSZ_TOP \/ edge = WMSZ_BOTTOM \/
      (is_corner edge /\ driveByWidth s W H = false)) ->
     (inject_Z H * a < 2 ^ 24)%Q ->
     0 < RoundToInt lu (F32.mul (F32.of_int H) (g_aspect s)) ->
     rect_height r' = H /\
     within_one_pixel (rect_width r') (inject_Z H * a)) /\
    ((edge = WMSZ_LEFT \/ edge = WMSZ_RIGHT \/
      (is_corner edge /\ driveByWidth s W H = true)) ->
     (inject_Z W / a < 2 ^ 24)%Q ->
     0 < RoundToInt lu (F32.div (F32.of_int W) (g_aspect s)) ->
     rect_width r' = W /\
     within_one_pixel (rect_height r') (inject_Z W / a)).
Proof.
  intros Hi Hinst Hfin HW HH W H a. subst W H a.
  pose proof (install_success_ratio s0 w aw ah s w' Hi Hinst) as Hga.
  rewrite Hfin in *.
  assert (F32.ltb F32.zero (g_aspect s) = true) as Hg by (now rewrite Hga).
  destruct HW as [Hw HwB]. destruct HH as [Hh HhB].
  destruct (ApplyAspect_returns_rect s r edge) as [r' Hr'].
  exists r'. split.
  { unfold SubclassProc. rewrite !Z.eqb_refl. cbn [negb]. now rewrite Hr'. }
  split.
  - intros Hcase HP Hpos.
    assert (r' = set_right r (Int32.add (left r)
                   (setWidthFromHeight lu s (rect_width r) (rect_height r))) \/
            r' = set_left r (Int32.sub (right r)
                   (setWidthFromHeight lu s (rect_width r) (rect_height r))))
      as Hshape.
    { destruct Hcase as [E | [E | [Hc Hd]]].
      - left. rewrite (horizontal_edge s r edge Hg Hw Hh) in Hr' by tauto.
        now injection Hr'.
      - left. rewrite (horizontal_edge s r edge Hg Hw Hh) in Hr' by tauto.
        now injection Hr'.
      - destruct (corner_sides edge Hc) as [E | E].
        + right. rewrite (corner_by_height_left s r edge Hg Hw Hh Hd E) in Hr'.
          now injection Hr'.
        + left. rewrite (corner_by_height_right s r edge Hg Hw Hh Hd E) in Hr'.
          now injection Hr'. }
    rewrite setWidthFromHeight_accepted in Hshape by exact Hpos.
    pose proof (RoundToInt_in_range
                  (F32.mul (F32.of_int (rect_height r)) (g_aspect s))) as Hin.
    pose proof (RoundToInt_mul_within (rect_height r) ma ea
                  (conj Hh HhB) HP) as Hpix.
    rewrite <- Hga in Hpix at 1.
    destruct Hshape as [-> | ->].
    + destruct (width_after_set_right r _ Hin) as [-> ->]. now split.
    + destruct (width_after_set_left r _ Hin) as [-> ->]. now split.
  - intros Hcase HP Hpos.
    assert (r' = set_bottom r (Int32.add (top r)
                   (setHeightFromWidth lu s (rect_height r) (rect_width r))) \/
            r' = set_top r (Int32.sub (bottom r)
                   (setHeightFromWidth lu s (rect_height r) (rect_width r))))
      as Hshape.
    { destruct Hcase as [E | [E | [Hc Hd]]].
      - left. rewrite (vertical_edge s r edge Hg Hw Hh) in Hr' by tauto.
        now injection Hr'.
      - left. rewrite (vertical_edge s r edge Hg Hw Hh) in Hr' by tauto.
        now injection Hr'.
      - destruct (corner_cases edge Hc) as [E | E].
        + right. rewrite (corner_by_width_top s r edge Hg Hw Hh Hd E) in Hr'.
          now injection Hr'.
        + left. rewrite (corner_by_width_bottom s r edge Hg Hw Hh Hd E) in Hr'.
          now injection Hr'. }
    rewrite setHeightFromWidth_accepted in Hshape by exact Hpos.
    pose proof (RoundToInt_in_range
                  (F32.div (F32.of_int (rect_width r)) (g_aspect s))) as Hin.
    pose proof (RoundToInt_div_within (rect_width r) ma ea
                  (conj Hw HwB) HP) as Hpix.
    rewrite <- Hga in Hpix at 1.
    destruct Hshape as [-> | ->].
    + destruct (height_after_set_bottom r _ Hin) as [-> ->]. now split.
    + destruct (height_after_set_top r _ Hin) as [-> ->]. now split.
Qed.

End Correction.

(** ** Instances *)

(** C1 (as stated, refuted).  After the successful [Install(10, 1)] the
    rectangle (0,0,14,5) dragged by its right edge becomes (0,0,14,1):
    [round(14/1) = 14] and [round(10/1) = 10] differ by 4.  After the
    successful [Install(1000, 1)] the rectangle (0,0,100,300) dragged by
    its right edge comes back as it was: its rounded ratio is 0 against
    1000, its width is not within a pixel of [300 * 1000] and its height
    is not within a pixel of [100 / 1000].  After the successful
    [Install(1, 1)] the rectangle of height [2^25 + 2] dragged by its
    bottom edge gets the width [2^25], two pixels away from its height:
    the height is not a binary32 number. *)
Lemma C1_rounded_ratio_not_preserved :
  (UnityAspectLock_Install initial_state demo_world (F32.of_int 10) (F32.of_int 1)
     = (1, ratio_10_1, attached_world) /\
   SubclassProc lround_indefinite ratio_10_1 WM_SIZING WMSZ_RIGHT
     (Some (mkRECT 0 0 14 5)) kSubclassId
     = Handled 1 (Some (mkRECT 0 0 14 1)) /\
   rounded_ratio 14 1 = 14 /\ rounded_ratio 10 1 = 10 /\
   ~ Z.abs (rounded_ratio 14 1 - rounded_ratio 10 1) <= 1)
  /\
  (UnityAspectLock_Install initial_state demo_world (F32.of_int 1000) (F32.of_int 1)
     = (1, ratio_1000_1, attached_world) /\
   SubclassProc lround_indefinite ratio_1000_1 WM_SIZING WMSZ_RIGHT
     (Some (mkRECT 0 0 100 300)) kSubclassId
     = Handled 1 (Some (mkRECT 0 0 100 300)) /\
   rounded_ratio 100 300 = 0 /\ rounded_ratio 1000 1 = 1000 /\
   ~ Z.abs (rounded_ratio 100 300 - rounded_ratio 1000 1) <= 1 /\
   ~ within_one_pixel 100 (inject_Z 300 * F32.to_Q (g_aspect ratio_1000_1)) /\
   ~ within_one_pixel 300 (inject_Z 100 / F32.to_Q (g_aspect ratio_1000_1)))
  /\
  (UnityAspectLock_Install initial_state demo_world (F32.of_int 1) (F32.of_int 1)
     = (1, ratio_1_1, attached_world) /\
   SubclassProc lround_indefinite ratio_1_1 WM_SIZING WMSZ_BOTTOM
     (Some (mkRECT 0 0 500 33554434)) kSubclassId
     = Handled 1 (Some (mkRECT 0 0 33554432 33554434)) /\
   ~ within_one_pixel 33554432 (inject_Z 33554434 * F32.to_Q (g_aspect ratio_1_1)) /\
   ~ within_one_pixel 33554434 (inject_Z 33554432 / F32.to_Q (g_aspect ratio_1_1))).
Proof.
  split; [|split].
  - repeat (split; [vm_compute; reflexivity|]).
    vm_compute. intros H. apply H. reflexivity.
  - repeat (split; [vm_compute; reflexivity|]).
    split; [vm_compute; intros H; apply H; reflexivity|].
    split; intros H; vm_compute in H; discriminate H.
  - repeat (split; [vm_compute; reflexivity|]).
    split; intros H; vm_compute in H; discriminate H.
Qed.

Lemma C1_derived_dimension_within_one_pixel_witness :
  exists r',
    SubclassProc lround_indefinite installed_16_9 WM_SIZING WMSZ_BOTTOM
      (Some (mkRECT 0 0 1600 800)) kSubclassId = Handled 1 (Some r') /\
    rect_height r' = 800 /\
    within_one_pixel (rect_width r') (inject_Z 800 * F32.to_Q (F32.div f16 f9)).
Proof.
  destruct (C1_derived_dimension_within_one_pixel lround_indefinite
              initial_state demo_world f16 f9 installed_16_9 attached_world
              (mkRECT 0 0 1600 800) WMSZ_BOTTOM 14913081 (-23)
              eq_refl eq_refl eq_refl
              ltac:(vm_compute; split; reflexivity)
              ltac:(vm_compute; split; reflexivity))
    as [r' [H1 [H2 _]]].
  exists r'. split; [exact H1|].
  apply H2.
  - right. left. reflexivity.
  - vm_compute. reflexivity.
  - vm_compute. reflexivity.
Defined.

(** C4 (as stated, refuted): with the ratio 1:1000 and the rectangle
    (0,0,300,400) dragged by its bottom edge, [round(H * r)] is 0 but the
    rectangle keeps its width 300: [right] is not [left + round(H * r)]. *)
Lemma C4_rounds_to_zero_keeps_width :
  let s := ratio_1_1000 in
  let r := mkRECT 0 0 300 400 in
  F32.ltb F32.zero (g_aspect s) = true /\
  0 < rect_width r /\ 0 < rect_height r /\
  RoundToInt lround_indefinite (F32.mul (F32.of_int (rect_height r)) (g_aspect s)) = 0 /\
  ApplyAspect lround_indefinite s (Some r) WMSZ_BOTTOM = Some (mkRECT 0 0 300 400) /\
  300 <> left r + 0.
Proof.
  cbv zeta. repeat (split; [vm_compute; reflexivity|]). discriminate.
Qed.

Lemma C4_horizontal_edge_derives_width_witness :
  exists r',
    ApplyAspect lround_indefinite installed_16_9 (Some (mkRECT 10 20 1610 820)) WMSZ_TOP
      = Some r' /\
    r' = mkRECT 10 20 1432 820 /\
    rect_width r' = 1422 /\ rect_height r' = 800.
Proof.
  apply (proj1 (C4_horizontal_edge_derives_width lround_indefinite)
           installed_16_9 (mkRECT 10 20 1610 820) WMSZ_TOP).
  - reflexivity.
  - reflexivity.
  - reflexivity.
  - left. reflexivity.
  - reflexivity.
Defined.

(** C5 (as stated, refuted): with the ratio 1000:1 the rectangle
    (0,0,100,300) dragged by a corner has [errH < errW], so the drag is
    width-driven, but [round(100 / 1000)] is 0 and the height stays 300:
    it is not derived from the width. *)
Lemma C5_width_driven_keeps_height :
  let s := ratio_1000_1 in
  let r := mkRECT 0 0 100 300 in
  let errH :=
    F32.fabs (F32.sub (F32.div (F32.of_int (rect_width r)) (g_aspect s))
                      (F32.of_int (rect_height r))) in
  let errW :=
    F32.fabs (F32.sub (F32.mul (F32.of_int (rect_height r)) (g_aspect s))
                      (F32.of_int (rect_width r))) in
  F32.ltb F32.zero (g_aspect s) = true /\
  0 < rect_width r /\ 0 < rect_height r /\
  is_corner WMSZ_BOTTOMRIGHT /\
  F32.ltb errH errW = true /\
  RoundToInt lround_indefinite
    (F32.div (F32.of_int (rect_width r)) (g_aspect s)) = 0 /\
  ApplyAspect lround_indefinite s (Some r) WMSZ_BOTTOMRIGHT
    = Some (mkRECT 0 0 100 300) /\
  rect_height (mkRECT 0 0 100 300) <> 0.
Proof.
  cbv zeta. repeat (split; [vm_compute; reflexivity|]).
  split; [right; right; right; reflexivity|].
  repeat (split; [vm_compute; reflexivity|]).
  vm_compute. discriminate.
Qed.

Lemma C5_corner_decision_witness :
  (exists r',
     ApplyAspect lround_indefinite installed_16_9 (Some (mkRECT 0 0 1600 850))
       WMSZ_TOPLEFT = Some r' /\
     left r' = 0 /\ right r' = 1600 /\
     rect_width r' = 1600 /\ rect_height r' = 900) /\
  (exists r',
     ApplyAspect lround_indefinite portrait_9_16 (Some (mkRECT 0 0 900 1500))
       WMSZ_BOTTOMLEFT = Some r' /\
     top r' = 0 /\ bottom r' = 1500 /\
     rect_height r' = 1500 /\ rect_width r' = 844).
Proof.
  split.
  - destruct (proj1 (C5_corner_decision lround_indefinite)
                installed_16_9 (mkRECT 0 0 1600 850) WMSZ_TOPLEFT
                eq_refl eq_refl eq_refl (or_introl eq_refl))
      as [r' [H1 [H2 _]]].
    exists r'. split; [exact H1|].
    destruct (H2 eq_refl) as (A & B & C & D & _).
    repeat split; try assumption. apply D. reflexivity.
  - destruct (proj1 (C5_corner_decision lround_indefinite)
                portrait_9_16 (mkRECT 0 0 900 1500) WMSZ_BOTTOMLEFT
                eq_refl eq_refl eq_refl
                (or_intror (or_intror (or_introl eq_refl))))
      as [r' [H1 [_ H2]]].
    exists r'. split; [exact H1|].
    destruct (H2 eq_refl) as (A & B & C & D & _).
    repeat split; try assumption. apply D. reflexivity.
Defined.

Lemma C6_corner_moves_one_named_edge_witness :
  ApplyAspect lround_indefinite installed_16_9 (Some (mkRECT 0 0 1600 850))
    WMSZ_TOPRIGHT = Some (mkRECT 0 (-50) 1600 850) /\
  ApplyAspect lround_indefinite portrait_9_16 (Some (mkRECT 0 0 900 1500))
    WMSZ_BOTTOMLEFT = Some (mkRECT 56 0 900 1500).
Proof.
  split.
  - apply (proj1 (proj1 (C6_corner_moves_one_named_edge lround_indefinite
             installed_16_9 (mkRECT 0 0 1600 850) WMSZ_TOPRIGHT
             eq_refl eq_refl eq_refl) eq_refl)).
    right. reflexivity.
  - apply (proj1 (proj2 (C6_corner_moves_one_named_edge lround_indefinite
             portrait_9_16 (mkRECT 0 0 900 1500) WMSZ_BOTTOMLEFT
             eq_refl eq_refl eq_refl) eq_refl)).
    right. reflexivity.
Defined.

Lemma C7_rejected_dimension_keeps_rect_witness :
  ApplyAspect lround_indefinite ratio_1_1000
    (Some (mkRECT 0 0 300 400)) WMSZ_BOTTOM = Some (mkRECT 0 0 300 400).
Proof.
  apply (proj1 (C7_rejected_dimension_keeps_rect lround_indefinite
           ratio_1_1000 (mkRECT 0 0 300 400) WMSZ_BOTTOM
           ltac:(vm_compute; intuition discriminate) eq_refl eq_refl eq_refl)).
  - right. left. reflexivity.
  - vm_compute. discriminate.
Defined.

Lemma C8_guards_leave_rect_unmodified_witness :
  ApplyAspect lround_indefinite installed_16_9 (Some (mkRECT 500 0 200 300))
    WMSZ_RIGHT = Some (mkRECT 500 0 200 300) /\
  SubclassProc lround_indefinite installed_16_9 WM_SIZING WMSZ_RIGHT
    (Some (mkRECT 500 0 200 300)) kSubclassId
    = Handled 1 (Some (mkRECT 500 0 200 300)).
Proof.
  apply (C8_guards_leave_rect_unmodified lround_indefinite installed_16_9
           (mkRECT 500 0 200 300) WMSZ_RIGHT).
  left. vm_compute. discriminate.
Defined.

(** * Further properties of the window locator and the exported functions *)

Lemma EnumWindows_first_eligible pid ws h0 :
  ctx_hwnd (EnumWindows enum_callback ws (mkCtx pid h0))
  = match find (eligible pid) ws with
    | Some x => win_handle x
    | None => h0
    end.
Proof.
  induction ws as [|x ws IH]; [reflexivity|].
  cbn [EnumWindows find]. unfold enum_callback, eligible. cbn [ctx_pid].
  destruct (win_pid x =? pid); cbn [negb andb]; [|exact IH].
  destruct (win_visible x); cbn [negb andb]; [|exact IH].
  destruct (win_owner x =? nullptr); cbn [negb]; [reflexivity | exact IH].
Qed.

Lemma found_window_is_eligible w :
  FindMainWindowForCurrentProcess w <> nullptr ->
  exists x, In x (toplevel w) /\ eligible (current_pid w) x = true /\
            win_handle x = FindMainWindowForCurrentProcess w.
Proof.
  unfold FindMainWindowForCurrentProcess.
  rewrite EnumWindows_first_eligible.
  destruct (find (eligible (current_pid w)) (toplevel w)) as [x|] eqn:E;
    [|congruence].
  intros _. apply find_some in E. exists x. tauto.
Qed.

(** X1: [FindMainWindowForCurrentProcess] returns the handle of the first
    window, in enumeration order, that belongs to the current process, is
    visible and has no owner, and [nullptr] when there is none; so a
    non-null result is the handle of such a window, and every window
    enumerated before it fails the test. *)
Theorem X1_locator_returns_first_eligible w :
  FindMainWindowForCurrentProcess w
    = match find (eligible (current_pid w)) (toplevel w) with
      | Some x => win_handle x
      | None => nullptr
      end /\
  ((forall x, In x (toplevel w) -> eligible (current_pid w) x = false) ->
   FindMainWindowForCurrentProcess w = nullptr) /\
  (forall before x after,
     toplevel w = before ++ x :: after ->
     (forall y, In y before -> eligible (current_pid w) y = false) ->
     eligible (current_pid w) x = true ->
     FindMainWindowForCurrentProcess w = win_handle x).
Proof.
  unfold FindMainWindowForCurrentProcess.
  rewrite EnumWindows_first_eligible. split; [reflexivity|]. split.
  - intros Hnone.
    destruct (find (eligible (current_pid w)) (toplevel w)) as [x|] eqn:E;
      [|reflexivity].
    apply find_some in E. destruct E as [Hin He].
    rewrite (Hnone x Hin) in He. discriminate.
  - intros before x after -> Hb Hx.
    induction before as [|y before IH]; cbn [app find].
    + now rewrite Hx.
    + rewrite (Hb y (or_introl eq_refl)). apply IH.
      intros z Hz. apply Hb. now right.
Qed.

Lemma X1_locator_returns_first_eligible_witness :
  FindMainWindowForCurrentProcess empty_world = nullptr /\
  FindMainWindowForCurrentProcess demo_world = 102.
Proof.
  split.
  - apply (proj1 (proj2 (X1_locator_returns_first_eligible empty_world))).
    intros x [<- | []]. reflexivity.
  - apply (proj2 (proj2 (X1_locator_returns_first_eligible demo_world))
             [ mkWindowInfo 7 1 true 0; mkWindowInfo 100 42 false 0;
               mkWindowInfo 101 42 true 100 ]
             (mkWindowInfo 102 42 true 0) []).
    + reflexivity.
    + intros y [<- | [<- | [<- | []]]]; reflexivity.
    + reflexivity.
Defined.

(** The three ways [Install] goes on from the uninstalled state. *)
Lemma install_outcome s w aw ah :
  g_installed s = false ->
  let h := FindMainWindowForCurrentProcess w in
  let rejected := F32.leb aw F32.zero || F32.leb ah F32.zero in
  UnityAspectLock_Install s w aw ah =
    if rejected then (0, s, w)
    else if h =? nullptr then (0, mkLockState h false (F32.div aw ah), w)
    else if subclass_ok w h
         then (1, mkLockState h true (F32.div aw ah),
               fst (SetWindowSubclass w h kSubclassId))
         else (0, mkLockState h false (F32.div aw ah), w).
Proof.
  intros Hi h rejected. subst h rejected.
  unfold UnityAspectLock_Install. rewrite Hi.
  destruct (F32.leb aw F32.zero || F32.leb ah F32.zero); [reflexivity|].
  cbn [g_hwnd g_installed g_aspect].
  destruct (FindMainWindowForCurrentProcess w =? nullptr); [reflexivity|].
  unfold SetWindowSubclass.
  destruct (subclass_ok w (FindMainWindowForCurrentProcess w)); reflexivity.
Qed.

Lemma attached_after_SetWindowSubclass w h id :
  subclass_ok w h = true ->
  In (h, id) (subclasses (fst (SetWindowSubclass w h id))).
Proof.
  intros Hok. unfold SetWindowSubclass. rewrite Hok. cbn [fst].
  destruct (existsb (same_attachment (h, id)) (subclasses w)) eqn:E.
  - apply existsb_exists in E. destruct E as [[h' id'] [Hin Hs]].
    unfold same_attachment in Hs. cbn [fst snd] in Hs.
    apply andb_true_iff in Hs. destruct Hs as [H1 H2].
    apply Z.eqb_eq in H1, H2. now subst.
  - cbn [subclasses]. now left.
Qed.

(** X2: from the uninstalled state [Install] returns 1 exactly when neither
    argument is [<= 0], a window is found and the subclass call succeeds;
    then the lock is installed on a non-null window that belongs to the
    current process, is visible and unowned, and this module's callback is
    attached to that window. *)
Theorem X2_install_success_iff s w aw ah :
  g_installed s = false ->
  let h := FindMainWindowForCurrentProcess w in
  let result := UnityAspectLock_Install s w aw ah in
  (fst (fst result) = 1 <->
   (F32.leb aw F32.zero = false /\ F32.leb ah F32.zero = false /\
    h <> nullptr /\ subclass_ok w h = true)) /\
  (fst (fst result) = 1 ->
   g_installed (snd (fst result)) = true /\
   g_hwnd (snd (fst result)) = h /\ h <> nullptr /\
   (exists x, In x (toplevel w) /\ eligible (current_pid w) x = true /\
              win_handle x = h) /\
   In (h, kSubclassId) (subclasses (snd result))).
Proof.
  intros Hi h result. subst result.
  rewrite (install_outcome s w aw ah Hi). fold h. cbv zeta.
  destruct (F32.leb aw F32.zero) eqn:Ew; cbn [orb].
  { split; [split; [discriminate | intros (? & _); discriminate] | discriminate]. }
  destruct (F32.leb ah F32.zero) eqn:Eh; cbn [orb].
  { split; [split; [discriminate | intros (_ & ? & _); discriminate] | discriminate]. }
  destruct (Z.eqb_spec h nullptr) as [E0 | E0].
  { split; [split; [discriminate | intros (_ & _& ? & _); contradiction] | discriminate]. }
  destruct (subclass_ok w h) eqn:Eok; cbn [fst snd].
  - split; [split; [intros _; repeat split; assumption | reflexivity]|].
    intros _. cbn [g_installed g_hwnd].
    repeat split; try assumption.
    + now apply found_window_is_eligible.
    + now apply attached_after_SetWindowSubclass.
  - split; [split; [discriminate | intros (_ & _ & _ & ?); discriminate] | discriminate].
Qed.

Lemma X2_install_success_iff_witness :
  (fst (fst (UnityAspectLock_Install initial_state demo_world f16 f9)) = 1 <->
   (F32.leb f16 F32.zero = false /\ F32.leb f9 F32.zero = false /\
    FindMainWindowForCurrentProcess demo_world <> nullptr /\
    subclass_ok demo_world (FindMainWindowForCurrentProcess demo_world) = true)) /\
  (fst (fst (UnityAspectLock_Install initial_state refusing_world f16 f9)) = 1 <->
   (F32.leb f16 F32.zero = false /\ F32.leb f9 F32.zero = false /\
    FindMainWindowForCurrentProcess refusing_world <> nullptr /\
    subclass_ok refusing_world (FindMainWindowForCurrentProcess refusing_world) = true)).
Proof.
  split.
  - apply (proj1 (X2_install_success_iff initial_state demo_world f16 f9 eq_refl)).
  - apply (proj1 (X2_install_success_iff initial_state refusing_world f16 f9 eq_refl)).
Defined.

(** X3: in every state and for every argument pair, the value [Install]
    returns is the value [IsInstalled] returns right after it, 0 or 1. *)
Theorem X3_install_result_is_IsInstalled s w aw ah :
  let result := UnityAspectLock_Install s w aw ah in
  fst (fst result) = UnityAspectLock_IsInstalled (snd (fst result)) /\
  (fst (fst result) = 0 \/ fst (fst result) = 1).
Proof.
  cbv zeta. unfold UnityAspectLock_IsInstalled.
  destruct (g_installed s) eqn:Hi.
  - rewrite install_when_installed by exact Hi. cbn [fst snd].
    rewrite Hi. split; [reflexivity | now right].
  - rewrite (install_outcome s w aw ah Hi). cbv zeta.
    destruct (F32.leb aw F32.zero || F32.leb ah F32.zero);
      [cbn [fst snd]; rewrite Hi; split; [reflexivity | now left]|].
    destruct (FindMainWindowForCurrentProcess w =? nullptr);
      [cbn [fst snd g_installed]; split; [reflexivity | now left]|].
    destruct (subclass_ok w (FindMainWindowForCurrentProcess w));
      cbn [fst snd g_installed]; split; auto.
Qed.

(** X4: [Install] never removes an attachment and never touches the window
    list; the only attachment it can add is this module's callback on the
    window it found, and when it returns 0 the window system is exactly as
    it was. *)
Theorem X4_install_only_adds_own_attachment s w aw ah :
  let result := UnityAspectLock_Install s w aw ah in
  let w' := snd result in
  current_pid w' = current_pid w /\ toplevel w' = toplevel w /\
  (forall a, In a (subclasses w) -> In a (subclasses w')) /\
  (forall a, In a (subclasses w') ->
     In a (subclasses w) \/
     a = (FindMainWindowForCurrentProcess w, kSubclassId)) /\
  (fst (fst result) = 0 -> w' = w).
Proof.
  cbv zeta. destruct (g_installed s) eqn:Hi.
  - rewrite install_when_installed by exact Hi. cbn [fst snd].
    repeat split; auto.
  - rewrite (install_outcome s w aw ah Hi). cbv zeta.
    destruct (F32.leb aw F32.zero || F32.leb ah F32.zero);
      [cbn [fst snd]; repeat split; auto|].
    destruct (FindMainWindowForCurrentProcess w =? nullptr);
      [cbn [fst snd]; repeat split; auto|].
    unfold SetWindowSubclass.
    destruct (subclass_ok w (FindMainWindowForCurrentProcess w));
      [|cbn [fst snd]; repeat split; auto].
    destruct (existsb _ (subclasses w)); cbn [fst snd];
      [repeat split; auto; discriminate|].
    cbn [current_pid toplevel subclasses].
    repeat split; auto.
    + intros a Ha. now right.
    + intros a [<- | Ha]; [now right | now left].
    + discriminate.
Qed.

(** X5: the argument check of [Install] is [<= 0], which a NaN does not
    satisfy.  On an uninstalled lock with an eligible window that can be
    subclassed, [Install] with a NaN as one argument succeeds and stores a
    NaN ratio exactly when the other argument [x] is not [<= 0] (it is
    positive, [+infinity] or itself NaN); when [x <= 0] the call returns 0
    and changes nothing. *)
Theorem X5_install_accepts_nan s w x :
  g_installed s = false ->
  FindMainWindowForCurrentProcess w <> nullptr ->
  subclass_ok w (FindMainWindowForCurrentProcess w) = true ->
  (F32.leb x F32.zero = false ->
   fst (UnityAspectLock_Install s w S754_nan x)
     = (1, mkLockState (FindMainWindowForCurrentProcess w) true S754_nan) /\
   fst (UnityAspectLock_Install s w x S754_nan)
     = (1, mkLockState (FindMainWindowForCurrentProcess w) true S754_nan)) /\
  (F32.leb x F32.zero = true ->
   UnityAspectLock_Install s w S754_nan x = (0, s, w) /\
   UnityAspectLock_Install s w x S754_nan = (0, s, w)).
Proof.
  intros Hi Hh Hok. apply Z.eqb_neq in Hh.
  rewrite !(install_outcome s w _ _ Hi). cbv zeta.
  split; intros Hx; rewrite Hx.
  - rewrite Hh, Hok.
    assert (F32.div x S754_nan = S754_nan) as -> by (destruct x; reflexivity).
    split; reflexivity.
  - split; reflexivity.
Qed.

Lemma X5_install_accepts_nan_witness :
  (fst (UnityAspectLock_Install initial_state demo_world S754_nan f9)
     = (1, mkLockState 102 true S754_nan) /\
   fst (UnityAspectLock_Install initial_state demo_world f9 S754_nan)
     = (1, mkLockState 102 true S754_nan)) /\
  (UnityAspectLock_Install initial_state demo_world S754_nan (F32.of_int (-1))
     = (0, initial_state, demo_world) /\
   UnityAspectLock_Install initial_state demo_world (F32.of_int (-1)) S754_nan
     = (0, initial_state, demo_world)).
Proof.
  split.
  - apply (proj1 (X5_install_accepts_nan initial_state demo_world f9
                    eq_refl ltac:(vm_compute; discriminate) eq_refl)).
    reflexivity.
  - apply (proj2 (X5_install_accepts_nan initial_state demo_world (F32.of_int (-1))
                    eq_refl ltac:(vm_compute; discriminate) eq_refl)).
    reflexivity.
Defined.

Lemma no_own_attachment w h :
  active_attachments w = 0%nat ->
  existsb (same_attachment (h, kSubclassId)) (subclasses w) = false /\
  filter (fun a => negb (same_attachment (h, kSubclassId) a)) (subclasses w)
    = subclasses w.
Proof.
  unfold active_attachments. generalize (subclasses w) as l.
  induction l as [|a l IH]; cbn [filter existsb length]; [now split|].
  unfold same_attachment at 1 3. cbn [fst snd].
  rewrite (Z.eqb_sym kSubclassId (snd a)).
  destruct (snd a =? kSubclassId); cbn [length]; [discriminate|].
  intros H0. destruct (IH H0) as [IH1 IH2].
  rewrite andb_false_r. cbn [orb negb]. now rewrite IH1, IH2.
Qed.

Lemma world_eta w :
  mkWorld (current_pid w) (toplevel w) (subclass_ok w) (subclasses w) = w.
Proof. now destruct w. Qed.

(** X6: [Uninstall] undoes a successful [Install]: starting uninstalled on
    a window system without attachment of this module, a successful
    [Install] followed by [Uninstall] gives the window system back exactly
    as it was and leaves the globals at [nullptr], not installed; only the
    stored ratio keeps the value [Install] gave it. *)
Theorem X6_uninstall_undoes_install s w aw ah s1 w1 :
  g_installed s = false ->
  active_attachments w = 0%nat ->
  UnityAspectLock_Install s w aw ah = (1, s1, w1) ->
  UnityAspectLock_Uninstall s1 w1
    = (mkLockState nullptr false (F32.div aw ah), w).
Proof.
  intros Hi H0 H. rewrite (install_outcome s w aw ah Hi) in H. cbv zeta in H.
  destruct (F32.leb aw F32.zero || F32.leb ah F32.zero); [discriminate|].
  destruct (Z.eqb_spec (FindMainWindowForCurrentProcess w) nullptr) as [E|E];
    [discriminate|].
  unfold SetWindowSubclass in H.
  destruct (subclass_ok w (FindMainWindowForCurrentProcess w)); [|discriminate].
  destruct (no_own_attachment w (FindMainWindowForCurrentProcess w) H0)
    as [Hex Hf].
  rewrite Hex in H. cbn [fst] in H. injection H as <- <-.
  unfold UnityAspectLock_Uninstall. cbn [g_installed g_hwnd g_aspect negb].
  rewrite (proj2 (Z.eqb_neq _ _) E). cbn [negb].
  unfold RemoveWindowSubclass. cbn [current_pid toplevel subclass_ok subclasses filter].
  unfold same_attachment at 1. cbn [fst snd]. rewrite !Z.eqb_refl. cbn [andb negb].
  now rewrite Hf, world_eta.
Qed.

Lemma X6_uninstall_undoes_install_witness :
  UnityAspectLock_Uninstall installed_16_9 attached_world
    = (mkLockState nullptr false (F32.div f16 f9), demo_world).
Proof.
  apply (X6_uninstall_undoes_install initial_state demo_world f16 f9);
    reflexivity.
Defined.

(** X7: [Uninstall] always leaves the lock uninstalled ([IsInstalled] is
    0) with the stored ratio untouched, does nothing at all when the lock
    is not installed, resets the window handle to [nullptr] when it is, and
    a second [Uninstall] changes nothing more. *)
Theorem X7_uninstall_idempotent s w :
  let s' := fst (UnityAspectLock_Uninstall s w) in
  let w' := snd (UnityAspectLock_Uninstall s w) in
  UnityAspectLock_IsInstalled s' = 0 /\
  g_aspect s' = g_aspect s /\
  UnityAspectLock_Uninstall s' w' = (s', w') /\
  (g_installed s = false -> s' = s /\ w' = w) /\
  (g_installed s = true -> g_hwnd s' = nullptr).
Proof.
  cbv zeta. unfold UnityAspectLock_Uninstall, UnityAspectLock_IsInstalled.
  destruct (g_installed s) eqn:Hi; cbn [negb fst snd g_installed g_aspect g_hwnd].
  - repeat split; try reflexivity; discriminate.
  - rewrite Hi. cbn [negb]. repeat split; try reflexivity; discriminate.
Qed.

Lemma X7_uninstall_idempotent_witness :
  (fst (UnityAspectLock_Uninstall initial_state demo_world) = initial_state /\
   snd (UnityAspectLock_Uninstall initial_state demo_world) = demo_world) /\
  g_hwnd (fst (UnityAspectLock_Uninstall installed_16_9 attached_world)) = nullptr.
Proof.
  split.
  - apply (proj1 (proj2 (proj2 (proj2
             (X7_uninstall_idempotent initial_state demo_world))))).
    reflexivity.
  - apply (proj2 (proj2 (proj2 (proj2
             (X7_uninstall_idempotent installed_16_9 attached_world))))).
    reflexivity.
Defined.

Lemma same_attachment_eq a b : same_attachment a b = true <-> a = b.
Proof.
  destruct a as [h i], b as [h' i']. unfold same_attachment. cbn [fst snd].
  rewrite andb_true_iff, !Z.eqb_eq. split; [intros [-> ->] | intros [= -> ->]];
    auto.
Qed.

(** X8: [Uninstall] removes nothing but this module's callback on the
    locked window: the window list is untouched, no attachment appears,
    every attachment other than [(g_hwnd, kSubclassId)] stays, and on an
    installed lock with a non-null window that one is gone afterwards. *)
Theorem X8_uninstall_removes_only_own_attachment s w :
  let w' := snd (UnityAspectLock_Uninstall s w) in
  current_pid w' = current_pid w /\ toplevel w' = toplevel w /\
  (forall a, In a (subclasses w') -> In a (subclasses w)) /\
  (forall a, In a (subclasses w) -> a <> (g_hwnd s, kSubclassId) ->
             In a (subclasses w')) /\
  (g_installed s = true -> g_hwnd s <> nullptr ->
   ~ In (g_hwnd s, kSubclassId) (subclasses w')).
Proof.
  cbv zeta. unfold UnityAspectLock_Uninstall.
  destruct (g_installed s); cbn [negb snd].
  - destruct (Z.eqb_spec (g_hwnd s) nullptr) as [E|E]; cbn [negb].
    + repeat split; auto; intros; contradiction.
    + unfold RemoveWindowSubclass. cbn [current_pid toplevel subclasses].
      repeat split.
      * intros a Ha. apply filter_In in Ha. tauto.
      * intros a Ha Hne. apply filter_In. split; [exact Ha|].
        destruct (same_attachment (g_hwnd s, kSubclassId) a) eqn:Es;
          [|reflexivity].
        apply same_attachment_eq in Es. congruence.
      * intros _ _ Hin. apply filter_In in Hin. destruct Hin as [_ Hf].
        assert (same_attachment (g_hwnd s, kSubclassId) (g_hwnd s, kSubclassId) = true)
          as Es by now apply same_attachment_eq.
        rewrite Es in Hf. discriminate.
  - repeat split; auto; discriminate.
Qed.

Lemma X8_uninstall_removes_only_own_attachment_witness :
  In (102, 77) (subclasses (snd (UnityAspectLock_Uninstall installed_16_9
      (mkWorld 42 (toplevel demo_world) (fun _ => true)
               [(102, 77); (102, kSubclassId); (7, kSubclassId)])))) /\
  ~ In (102, kSubclassId) (subclasses (snd (UnityAspectLock_Uninstall installed_16_9
      (mkWorld 42 (toplevel demo_world) (fun _ => true)
               [(102, 77); (102, kSubclassId); (7, kSubclassId)])))).
Proof.
  split.
  - apply (proj1 (proj2 (proj2 (proj2
             (X8_uninstall_removes_only_own_attachment installed_16_9 _))))).
    + left. reflexivity.
    + vm_compute. discriminate.
  - apply (proj2 (proj2 (proj2 (proj2
             (X8_uninstall_removes_only_own_attachment installed_16_9 _))))).
    + reflexivity.
    + vm_compute. discriminate.
Defined.

(** X9: the stored ratio of an installed lock cannot be changed by
    [Install] alone, whatever its arguments, but [Uninstall] followed by a
    successful [Install(aspectWidth, aspectHeight)] stores
    [aspectWidth / aspectHeight]. *)
Theorem X9_ratio_changes_only_through_uninstall s w aw ah :
  (g_installed s = true ->
   g_aspect (snd (fst (UnityAspectLock_Install s w aw ah))) = g_aspect s) /\
  (forall s2 w2,
     UnityAspectLock_Install (fst (UnityAspectLock_Uninstall s w))
                             (snd (UnityAspectLock_Uninstall s w)) aw ah
       = (1, s2, w2) ->
     g_installed s2 = true /\ g_aspect s2 = F32.div aw ah).
Proof.
  split.
  - intros Hi. now rewrite install_when_installed.
  - intros s2 w2 H.
    assert (g_installed (fst (UnityAspectLock_Uninstall s w)) = false) as Hu.
    { unfold UnityAspectLock_Uninstall.
      destruct (g_installed s) eqn:Hi; cbn [negb fst g_installed]; auto. }
    split; [|exact (install_success_ratio _ _ _ _ _ _ Hu H)].
    rewrite (install_outcome _ _ aw ah Hu) in H. cbv zeta in H.
    repeat match type of H with
           | context [if ?c then _ else _] => destruct c
           end; try discriminate.
    now injection H as <- _.
Qed.

Lemma X9_ratio_changes_only_through_uninstall_witness :
  g_aspect (snd (fst (UnityAspectLock_Install installed_16_9 attached_world
                        (F32.of_int 4) (F32.of_int 3))))
    = F32.div f16 f9 /\
  g_installed (mkLockState 102 true (F32.div (F32.of_int 4) (F32.of_int 3))) = true /\
  g_aspect (mkLockState 102 true (F32.div (F32.of_int 4) (F32.of_int 3)))
    = F32.div (F32.of_int 4) (F32.of_int 3).
Proof.
  split.
  - apply (proj1 (X9_ratio_changes_only_through_uninstall
                    installed_16_9 attached_world (F32.of_int 4) (F32.of_int 3))).
    reflexivity.
  - apply (proj2 (X9_ratio_changes_only_through_uninstall
                    installed_16_9 attached_world (F32.of_int 4) (F32.of_int 3))
             _ attached_world).
    reflexivity.
Defined.

Lemma X4_install_only_adds_own_attachment_witness :
  In (102, 77) (subclasses (snd (UnityAspectLock_Install initial_state shared_world f16 f9))) /\
  (In (102, kSubclassId) (subclasses shared_world) \/
   (102, kSubclassId) = (FindMainWindowForCurrentProcess shared_world, kSubclassId)) /\
  snd (UnityAspectLock_Install initial_state empty_world f16 f9) = empty_world.
Proof.
  split; [|split].
  - apply (proj1 (proj2 (proj2
             (X4_install_only_adds_own_attachment initial_state shared_world f16 f9)))).
    left. reflexivity.
  - apply (proj1 (proj2 (proj2 (proj2
             (X4_install_only_adds_own_attachment initial_state shared_world f16 f9))))).
    left. reflexivity.
  - apply (proj2 (proj2 (proj2 (proj2
             (X4_install_only_adds_own_attachment initial_state empty_world f16 f9))))).
    reflexivity.
Defined.

(** * Further properties of the resize handler *)

Lemma wrap_add_wrap_l a b : Int32.wrap (Int32.wrap a + b) = Int32.wrap (a + b).
Proof.
  rewrite (Z.add_comm (Int32.wrap a) b), Int32Facts.wrap_add_wrap_r.
  f_equal. lia.
Qed.

Lemma sub_translated a b d :
  Int32.sub (Int32.add a d) (Int32.add b d) = Int32.sub a b.
Proof.
  unfold Int32.sub, Int32.add.
  rewrite Int32Facts.wrap_sub_wrap_r, Int32Facts.wrap_sub_wrap_l. f_equal. lia.
Qed.

Lemma add_translated a d n :
  Int32.add (Int32.add a d) n = Int32.add (Int32.add a n) d.
Proof.
  unfold Int32.add. rewrite !wrap_add_wrap_l. f_equal. lia.
Qed.

Lemma sub_then_translated a d n :
  Int32.sub (Int32.add a d) n = Int32.add (Int32.sub a n) d.
Proof.
  unfold Int32.add, Int32.sub.
  rewrite Int32Facts.wrap_sub_wrap_l, wrap_add_wrap_l. f_equal. lia.
Qed.

Section Handler.

Variable lu : F32.float -> Z.

Lemma setWidthFromHeight_positive s w newH :
  0 < w -> 0 < setWidthFromHeight lu s w newH.
Proof.
  intros Hw. unfold setWidthFromHeight. cbv zeta.
  destruct (Z.ltb_spec 0 (RoundToInt lu (F32.mul (F32.of_int newH) (g_aspect s))));
    assumption.
Qed.

Lemma setHeightFromWidth_positive s h newW :
  0 < h -> 0 < setHeightFromWidth lu s h newW.
Proof.
  intros Hh. unfold setHeightFromWidth. cbv zeta.
  destruct (Z.ltb_spec 0 (RoundToInt lu (F32.div (F32.of_int newW) (g_aspect s))));
    assumption.
Qed.

(** A second call of a helper on its own result returns that result. *)
Lemma setWidthFromHeight_again s w newH :
  setWidthFromHeight lu s (setWidthFromHeight lu s w newH) newH
  = setWidthFromHeight lu s w newH.
Proof.
  unfold setWidthFromHeight. cbv zeta.
  destruct (0 <? RoundToInt lu (F32.mul (F32.of_int newH) (g_aspect s))) eqn:E;
    now rewrite ?E.
Qed.

Lemma setHeightFromWidth_again s h newW :
  setHeightFromWidth lu s (setHeightFromWidth lu s h newW) newW
  = setHeightFromWidth lu s h newW.
Proof.
  unfold setHeightFromWidth. cbv zeta.
  destruct (0 <? RoundToInt lu (F32.div (F32.of_int newW) (g_aspect s))) eqn:E;
    now rewrite ?E.
Qed.

Lemma guard_exit s r edge :
  F32.leb (g_aspect s) F32.zero = true \/ rect_width r <= 0 \/ rect_height r <= 0 ->
  ApplyAspect lu s (Some r) edge = Some r.
Proof.
  intros H. unfold ApplyAspect.
  destruct (F32.leb (g_aspect s) F32.zero); [reflexivity|].
  destruct H as [H | [H | H]]; [discriminate | |].
  - now rewrite (proj2 (Z.leb_le _ _) H).
  - rewrite (proj2 (Z.leb_le (rect_height r) 0) H). now rewrite orb_true_r.
Qed.

(** The outcome of [ApplyAspect]: the rectangle as it was, or one edge
    rewritten from a helper's result. *)
Lemma ApplyAspect_shape s r edge :
  ApplyAspect lu s (Some r) edge = Some r \/
  (0 < rect_width r /\ 0 < rect_height r /\
   let newW := setWidthFromHeight lu s (rect_width r) (rect_height r) in
   let newH := setHeightFromWidth lu s (rect_height r) (rect_width r) in
   (ApplyAspect lu s (Some r) edge
      = Some (set_right r (Int32.add (left r) newW)) \/
    ApplyAspect lu s (Some r) edge
      = Some (set_left r (Int32.sub (right r) newW)) \/
    ApplyAspect lu s (Some r) edge
      = Some (set_bottom r (Int32.add (top r) newH)) \/
    ApplyAspect lu s (Some r) edge
      = Some (set_top r (Int32.sub (bottom r) newH)))).
Proof.
  unfold ApplyAspect.
  destruct (F32.leb (g_aspect s) F32.zero); [now left|].
  destruct (Z.leb_spec (rect_width r) 0); [now left|].
  destruct (Z.leb_spec (rect_height r) 0); [now left|].
  cbn [orb]. cbv zeta.
  repeat match goal with
         | |- context [if ?c then _ else _] => destruct c
         end; tauto.
Qed.

Section AnyRatio.

Variables (s : LockState) (r : RECT) (edge : Z).
Hypothesis Hg : F32.leb (g_aspect s) F32.zero = false.
Hypothesis Hw : 0 < rect_width r.
Hypothesis Hh : 0 < rect_height r.

Lemma horizontal_edge_any :
  edge = WMSZ_TOP \/ edge = WMSZ_BOTTOM ->
  ApplyAspect lu s (Some r) edge =
    Some (set_right r (Int32.add (left r)
            (setWidthFromHeight lu s (rect_width r) (rect_height r)))).
Proof.
  unfold ApplyAspect. rewrite Hg.
  rewrite (proj2 (Z.leb_gt _ _) Hw), (proj2 (Z.leb_gt _ _) Hh). cbn [orb].
  intros [-> | ->]; reflexivity.
Qed.

Lemma vertical_edge_any :
  edge = WMSZ_LEFT \/ edge = WMSZ_RIGHT ->
  ApplyAspect lu s (Some r) edge =
    Some (set_bottom r (Int32.add (top r)
            (setHeightFromWidth lu s (rect_height r) (rect_width r)))).
Proof.
  unfold ApplyAspect. rewrite Hg.
  rewrite (proj2 (Z.leb_gt _ _) Hw), (proj2 (Z.leb_gt _ _) Hh). cbn [orb].
  intros [-> | ->]; reflexivity.
Qed.

End AnyRatio.

(** X10: [SubclassProc] answers exactly the WM_SIZING messages that carry
    this module's subclass id, always with [TRUE] and the rectangle
    [ApplyAspect] leaves (a null rectangle pointer stays null); every
    other message and every other subclass id goes on to
    [DefSubclassProc] with the rectangle untouched. *)
Theorem X10_handler_answers_only_own_sizing s msg wParam lParam uId :
  (SubclassProc lu s msg wParam lParam uId = Forwarded <->
   (uId <> kSubclassId \/ msg <> WM_SIZING)) /\
  (uId = kSubclassId -> msg = WM_SIZING ->
   SubclassProc lu s msg wParam lParam uId
     = Handled 1 (ApplyAspect lu s lParam wParam) /\
   (lParam = None -> SubclassProc lu s msg wParam lParam uId = Handled 1 None) /\
   (forall r, lParam = Some r ->
      exists r', SubclassProc lu s msg wParam lParam uId = Handled 1 (Some r'))).
Proof.
  unfold SubclassProc. split.
  - destruct (Z.eqb_spec uId kSubclassId) as [Eu|Eu]; cbn [negb];
      [destruct (Z.eqb_spec msg WM_SIZING) as [Em|Em]|];
      split; intros H; try discriminate H; try reflexivity; tauto.
  - intros -> ->. rewrite !Z.eqb_refl. cbn [negb].
    split; [reflexivity|]. split.
    + intros ->. reflexivity.
    + intros r ->.
      destruct (ApplyAspect_shape s r wParam) as [H | (_ & _ & H)].
      * exists r. now rewrite H.
      * cbv zeta in H.
        destruct H as [H | [H | [H | H]]]; rewrite H; eexists; reflexivity.
Qed.

(** X11: on a Left or Right drag of a rectangle of positive width [W] and
    height with a positive ratio [r], when [round(W / r)] is positive the
    rectangle keeps [left], [top] and [right] and gets
    [bottom = top + round(W / r)], so that its height is [round(W / r)]
    and its width is [W]. *)
Theorem X11_vertical_edge_derives_height s r edge :
  0 < rect_width r -> 0 < rect_height r ->
  F32.ltb F32.zero (g_aspect s) = true ->
  edge = WMSZ_LEFT \/ edge = WMSZ_RIGHT ->
  let newH := RoundToInt lu (F32.div (F32.of_int (rect_width r)) (g_aspect s)) in
  0 < newH ->
  exists r',
    ApplyAspect lu s (Some r) edge = Some r' /\
    r' = mkRECT (left r) (top r) (right r) (Int32.add (top r) newH) /\
    rect_height r' = newH /\ rect_width r' = rect_width r.
Proof.
  intros Hw Hh Hg E newH Hpos. subst newH.
  eexists. split;
    [apply (vertical_edge_any s r edge (positive_not_leb_zero _ Hg) Hw Hh E)|].
  rewrite setHeightFromWidth_accepted by exact Hpos.
  split; [reflexivity|].
  apply height_after_set_bottom, RoundToInt_in_range.
Qed.

Lemma edges_changed_one r :
  (forall v, edges_changed r (set_left r v) <= 1) /\
  (forall v, edges_changed r (set_top r v) <= 1) /\
  (forall v, edges_changed r (set_right r v) <= 1) /\
  (forall v, edges_changed r (set_bottom r v) <= 1) /\
  edges_changed r r = 0.
Proof.
  unfold edges_changed, set_left, set_top, set_right, set_bottom.
  cbn [left top right bottom]. rewrite !Z.eqb_refl.
  repeat split; try intros v; try reflexivity.
  - destruct (left r =? v); lia.
  - destruct (top r =? v); lia.
  - destruct (right r =? v); lia.
  - destruct (bottom r =? v); lia.
Qed.

(** X12: whatever the state, the rectangle and the edge value,
    [ApplyAspect] rewrites at most one of the four edges; a Top or Bottom
    drag can only move [right] and a Left or Right drag can only move
    [bottom], so [left] and [top] are never moved by an edge drag. *)
Theorem X12_at_most_one_edge_moves s r edge :
  exists r',
    ApplyAspect lu s (Some r) edge = Some r' /\
    edges_changed r r' <= 1 /\
    (edge = WMSZ_TOP \/ edge = WMSZ_BOTTOM ->
     left r' = left r /\ top r' = top r /\ bottom r' = bottom r) /\
    (edge = WMSZ_LEFT \/ edge = WMSZ_RIGHT ->
     left r' = left r /\ top r' = top r /\ right r' = right r).
Proof.
  destruct (edges_changed_one r) as (Hl & Ht & Hr & Hb & H0).
  destruct (F32.leb (g_aspect s) F32.zero) eqn:Hg;
    [exists r; rewrite guard_exit by tauto; repeat split; lia|].
  destruct (Z_le_gt_dec (rect_width r) 0) as [Hw|Hw];
    [exists r; rewrite guard_exit by tauto; repeat split; lia|].
  destruct (Z_le_gt_dec (rect_height r) 0) as [Hh|Hh];
    [exists r; rewrite guard_exit by tauto; repeat split; lia|].
  assert (F32.leb (g_aspect s) F32.zero = false) as Hg' by exact Hg.
  assert (0 < rect_width r) as Hw' by lia.
  assert (0 < rect_height r) as Hh' by lia.
  destruct (Z.eq_dec edge WMSZ_TOP) as [E3|E3];
    [|destruct (Z.eq_dec edge WMSZ_BOTTOM) as [E6|E6]].
  1,2: eexists; split;
       [apply (horizontal_edge_any s r edge Hg' Hw' Hh'); tauto|];
       split; [apply Hr|]; split; intros E;
       [repeat split | unfold WMSZ_TOP, WMSZ_BOTTOM, WMSZ_LEFT, WMSZ_RIGHT in *; lia].
  destruct (Z.eq_dec edge WMSZ_LEFT) as [E1|E1];
    [|destruct (Z.eq_dec edge WMSZ_RIGHT) as [E2|E2]].
  1,2: eexists; split;
       [apply (vertical_edge_any s r edge Hg' Hw' Hh'); tauto|];
       split; [apply Hb|]; split; intros E;
       [unfold WMSZ_TOP, WMSZ_BOTTOM, WMSZ_LEFT, WMSZ_RIGHT in *; lia | repeat split].
  destruct (ApplyAspect_shape s r edge) as [H | (_ & _ & H)].
  { exists r. split; [exact H|]. split; [lia|]. split; intros E; tauto. }
  cbv zeta in H.
  destruct H as [H | [H | [H | H]]]; eexists; (split; [exact H|]);
    (split; [auto|]); split; intros E; tauto.
Qed.

(** X13: [ApplyAspect] never collapses a window: a rectangle of positive
    width and height comes back with positive width and height, for every
    state (a NaN or infinite ratio included), every edge value and every
    result of the rounding. *)
Theorem X13_dimensions_stay_positive s r edge r' :
  0 < rect_width r -> 0 < rect_height r ->
  ApplyAspect lu s (Some r) edge = Some r' ->
  0 < rect_width r' /\ 0 < rect_height r'.
Proof.
  intros Hw Hh H.
  pose proof (setWidthFromHeight_in_range lu s r (rect_height r)) as HinW.
  pose proof (setHeightFromWidth_in_range lu s r (rect_width r)) as HinH.
  pose proof (setWidthFromHeight_positive s (rect_width r) (rect_height r) Hw) as HpW.
  pose proof (setHeightFromWidth_positive s (rect_height r) (rect_width r) Hh) as HpH.
  destruct (ApplyAspect_shape s r edge) as [K | (_ & _ & K)].
  { rewrite K in H. injection H as <-. now split. }
  cbv zeta in K.
  destruct K as [K | [K | [K | K]]]; rewrite K in H; injection H as <-.
  - destruct (width_after_set_right r _ HinW) as [-> ->]. now split.
  - destruct (width_after_set_left r _ HinW) as [-> ->]. now split.
  - destruct (height_after_set_bottom r _ HinH) as [-> ->]. now split.
  - destruct (height_after_set_top r _ HinH) as [-> ->]. now split.
Qed.

(** X14: on the four edge drags the corrected rectangle is a fixed point:
    correcting it again with the same edge changes nothing, in every
    state and for every rectangle. *)
Theorem X14_edge_correction_idempotent s r edge r' :
  edge = WMSZ_LEFT \/ edge = WMSZ_RIGHT \/ edge = WMSZ_TOP \/ edge = WMSZ_BOTTOM ->
  ApplyAspect lu s (Some r) edge = Some r' ->
  ApplyAspect lu s (Some r') edge = Some r'.
Proof.
  intros E H.
  destruct (F32.leb (g_aspect s) F32.zero) eqn:Hg;
    [rewrite guard_exit in H by tauto; injection H as <-;
     apply guard_exit; tauto|].
  destruct (Z_le_gt_dec (rect_width r) 0) as [Hw|Hw];
    [rewrite guard_exit in H by tauto; injection H as <-;
     apply guard_exit; tauto|].
  destruct (Z_le_gt_dec (rect_height r) 0) as [Hh|Hh];
    [rewrite guard_exit in H by tauto; injection H as <-;
     apply guard_exit; tauto|].
  assert (0 < rect_width r) as Hw' by lia.
  assert (0 < rect_height r) as Hh' by lia.
  assert ((edge = WMSZ_TOP \/ edge = WMSZ_BOTTOM) \/
          (edge = WMSZ_LEFT \/ edge = WMSZ_RIGHT)) as [Eh | Ev] by tauto.
  - rewrite (horizontal_edge_any s r edge Hg Hw' Hh' Eh) in H.
    injection H as <-.
    pose proof (setWidthFromHeight_in_range lu s r (rect_height r)) as Hin.
    pose proof (setWidthFromHeight_positive s (rect_width r) (rect_height r) Hw')
      as Hpos.
    destruct (width_after_set_right r _ Hin) as [Ew Eh'].
    rewrite horizontal_edge_any; [|exact Hg | now rewrite Ew | now rewrite Eh' | exact Eh].
    rewrite Ew, Eh', setWidthFromHeight_again. reflexivity.
  - rewrite (vertical_edge_any s r edge Hg Hw' Hh' Ev) in H.
    injection H as <-.
    pose proof (setHeightFromWidth_in_range lu s r (rect_width r)) as Hin.
    pose proof (setHeightFromWidth_positive s (rect_height r) (rect_width r) Hh')
      as Hpos.
    destruct (height_after_set_bottom r _ Hin) as [Eh' Ew].
    rewrite vertical_edge_any; [|exact Hg | now rewrite Ew | now rewrite Eh' | exact Ev].
    rewrite Ew, Eh', setHeightFromWidth_again. reflexivity.
Qed.

Lemma translate_dimensions dx dy r :
  rect_width (translate dx dy r) = rect_width r /\
  rect_height (translate dx dy r) = rect_height r.
Proof.
  unfold rect_width, rect_height, translate. cbn [left top right bottom].
  now rewrite !sub_translated.
Qed.

(** X15: the correction depends on the size of the rectangle only, not on
    where the window is: correcting a rectangle moved by [(dx, dy)] gives
    the corrected rectangle moved by [(dx, dy)], for every state, edge
    value and offset. *)
Theorem X15_correction_commutes_with_translation s r edge dx dy :
  ApplyAspect lu s (Some (translate dx dy r)) edge
  = option_map (translate dx dy) (ApplyAspect lu s (Some r) edge).
Proof.
  destruct (translate_dimensions dx dy r) as [Ew Eh].
  unfold ApplyAspect. rewrite Ew, Eh.
  repeat match goal with
         | |- context [if ?c then _ else _] => destruct c
         end; cbn [option_map]; try reflexivity; f_equal;
    unfold translate, set_left, set_top, set_right, set_bottom;
    cbn [left top right bottom]; f_equal;
    first [apply add_translated | apply sub_then_translated].
Qed.

(** ** [RoundToInt] *)

Lemma binary_round_exact sx p :
  Zpos p < 2 ^ 24 ->
  exists mx ex,
    binary_round 24 128 sx p 0 = S754_finite sx mx ex /\
    ex <= 0 /\ Zpos mx = Zpos p * 2 ^ (- ex).
Proof.
  intros H1. unfold binary_round.
  pose proof (Binary32Facts.digits2_pos_bounds p) as B.
  assert (Zpos (digits2_pos p) <= 24) as Hd
    by (apply (Binary32Facts.Zdigits2_le (Zpos p) 24); lia).
  rewrite Z.add_0_r, Binary32Facts.fexp32.
  replace (Z.max (Zpos (digits2_pos p) - 24) (-149))
    with (Zpos (digits2_pos p) - 24) by lia.
  unfold shl_align. rewrite Z.sub_0_r.
  destruct (Zpos (digits2_pos p) - 24) as [|q|q] eqn:E; try lia.
  - assert (Zpos (digits2_pos p) = 24) as E24 by lia.
    rewrite Binary32Facts.canonical_exact;
      [|cbn [Zdigits2]; rewrite E24; reflexivity | lia].
    exists p, 0. split; [reflexivity|]. split; [lia|]. cbn. lia.
  - pose proof (Binary32Facts.iter_xO_value p q) as Hv.
    assert (0 < 2 ^ Zpos q) as Hq by (apply Z.pow_pos_nonneg; lia).
    assert (2 ^ 23 <= Zpos (Pos.iter xO p q) < 2 ^ 24) as Hb.
    { rewrite Hv.
      assert (2 ^ 23 = 2 ^ (Zpos (digits2_pos p) - 1) * 2 ^ Zpos q) as ->
        by (rewrite <- Z.pow_add_r by lia; f_equal; lia).
      assert (2 ^ 24 = 2 ^ Zpos (digits2_pos p) * 2 ^ Zpos q) as ->
        by (rewrite <- Z.pow_add_r by lia; f_equal; lia).
      nia. }
    rewrite Binary32Facts.canonical_exact.
    + exists (Pos.iter xO p q), (Zneg q). split; [reflexivity|].
      split; [lia | exact Hv].
    + rewrite Binary32Facts.fexp32.
      rewrite (Binary32Facts.Zdigits2_unique _ 24); [lia | exact Hb | lia].
    + lia.
Qed.

Lemma round_magnitude_of_scaled_int m e n :
  e <= 0 -> Zpos m = n * 2 ^ (- e) -> F32.round_magnitude m e = n.
Proof.
  intros He Hm.
  assert (0 < 2 ^ (- e)) as Hp by (apply Z.pow_pos_nonneg; lia).
  rewrite (Binary32Facts.round_magnitude_scaled m e (- e)) by lia.
  replace (e + - e) with 0 by lia. rewrite Z.pow_0_r, Z.mul_1_r, Hm.
  symmetry. apply Z.div_unique with (2 ^ (- e)); lia.
Qed.

(** X16: converting an [int] of magnitude below [2^24] to [float] and
    rounding it back with [RoundToInt] gives the same [int], whatever
    [lround] does on unrepresentable values. *)
Theorem X16_RoundToInt_of_int n :
  - 2 ^ 24 < n < 2 ^ 24 -> RoundToInt lu (F32.of_int n) = n.
Proof.
  intros Hn. unfold RoundToInt, lround, F32.of_int, F32.prec, F32.emax.
  destruct n as [|p|p]; cbn [binary_normalize].
  - reflexivity.
  - destruct (binary_round_exact false p ltac:(lia)) as (mx & ex & -> & He & Hm).
    cbn [F32.round_half_away].
    rewrite (round_magnitude_of_scaled_int mx ex (Zpos p) He Hm).
    assert ((Int32.min_signed <=? Zpos p) && (Zpos p <=? Int32.max_signed) = true) as ->;
      [|reflexivity].
    apply andb_true_iff. unfold Int32.min_signed, Int32.max_signed.
    split; apply Z.leb_le; lia.
  - destruct (binary_round_exact true p ltac:(lia)) as (mx & ex & -> & He & Hm).
    cbn [F32.round_half_away].
    rewrite (round_magnitude_of_scaled_int mx ex (Zpos p) He Hm).
    assert ((Int32.min_signed <=? - Zpos p) && (- Zpos p <=? Int32.max_signed) = true) as ->;
      [|reflexivity].
    apply andb_true_iff. unfold Int32.min_signed, Int32.max_signed.
    split; apply Z.leb_le; lia.
Qed.

Lemma half_bound_to_Q (z m k : Z) :
  0 <= k ->
  2 * Z.abs (z * 2 ^ k - m) <= 2 ^ k ->
  (Qabs (inject_Z z - inject_Z m * 2 ^ (- k)) <= 1 # 2)%Q.
Proof.
  intros Hk H.
  assert (0 < 2 ^ k) as Hp by (apply Z.pow_pos_nonneg; lia).
  rewrite Binary32Facts.two_power_neg by exact Hk.
  set (S := 2 ^ k) in *.
  assert (0 < inject_Z S)%Q as HS by (rewrite <- (Zlt_Qlt 0); exact Hp).
  assert (inject_Z z - inject_Z m * / inject_Z S
          == (inject_Z z * inject_Z S - inject_Z m) / inject_Z S)%Q as ->
    by (field; lra).
  assert (inject_Z (2 * (z * S + - m)) <= inject_Z S)%Q as Hu
    by (rewrite <- Zle_Qle; lia).
  assert (inject_Z (- S) <= inject_Z (2 * (z * S + - m)))%Q as Hl
    by (rewrite <- Zle_Qle; lia).
  repeat first [ rewrite inject_Z_mult in Hu | rewrite inject_Z_plus in Hu
               | rewrite inject_Z_opp in Hu ].
  repeat first [ rewrite inject_Z_mult in Hl | rewrite inject_Z_plus in Hl
               | rewrite inject_Z_opp in Hl ].
  change (inject_Z 2) with 2%Q in Hu, Hl.
  apply Qabs_Qle_condition. split.
  - apply Qle_shift_div_l; [exact HS|]. lra.
  - apply Qle_shift_div_r; [exact HS|]. lra.
Qed.

Lemma round_magnitude_nearest m e :
  0 <= F32.round_magnitude m e /\
  (Qabs (inject_Z (F32.round_magnitude m e) - inject_Z (Zpos m) * 2 ^ e) <= 1 # 2)%Q.
Proof.
  destruct e as [|p|p]; cbn [F32.round_magnitude].
  - split; [lia|].
    assert (inject_Z (Zpos m) - inject_Z (Zpos m) * 2 ^ 0 == 0)%Q as ->
      by (change (2 ^ 0)%Q with 1%Q; ring).
    discriminate.
  - assert (0 < 2 ^ Zpos p) as Hp by (apply Z.pow_pos_nonneg; lia).
    split; [nia|].
    assert (inject_Z (Zpos m * 2 ^ Zpos p) - inject_Z (Zpos m) * 2 ^ Zpos p == 0)%Q
      as -> by (rewrite inject_Z_mult, <- Binary32Facts.two_power_Q by lia; ring).
    discriminate.
  - assert (0 < 2 ^ Zpos p) as Hp by (apply Z.pow_pos_nonneg; lia).
    pose proof (Z.div_mod (2 * Zpos m + 2 ^ Zpos p) (2 * 2 ^ Zpos p) ltac:(lia)) as Hdm.
    pose proof (Z.mod_pos_bound (2 * Zpos m + 2 ^ Zpos p) (2 * 2 ^ Zpos p) ltac:(lia)) as Hb.
    split; [apply Z.div_pos; lia|].
    change (Zneg p) with (- Zpos p).
    apply half_bound_to_Q; [lia|].
    set (z := (2 * Zpos m + 2 ^ Zpos p) / (2 * 2 ^ Zpos p)) in *.
    set (rr := (2 * Zpos m + 2 ^ Zpos p) mod (2 * 2 ^ Zpos p)) in *.
    lia.
Qed.

Lemma half_value_rounds_up m e n :
  (inject_Z (Zpos m) * 2 ^ e == inject_Z n + (1 # 2))%Q ->
  F32.round_magnitude m e = n + 1.
Proof.
  intros H. destruct e as [|p|p]; cbn [F32.round_magnitude].
  - exfalso. change (2 ^ 0)%Q with 1%Q in H. rewrite Qmult_1_r in H.
    unfold Qeq, Qplus, inject_Z in H. cbn [Qnum Qden] in H. lia.
  - exfalso. rewrite Binary32Facts.two_power_Q, <- inject_Z_mult in H by lia.
    unfold Qeq, Qplus, inject_Z in H. cbn [Qnum Qden] in H. lia.
  - assert (0 < 2 ^ Zpos p) as Hp by (apply Z.pow_pos_nonneg; lia).
    change (Zneg p) with (- Zpos p) in H.
    rewrite Binary32Facts.two_power_neg in H by lia.
    set (S := 2 ^ Zpos p) in *.
    assert (0 < inject_Z S)%Q as HS by (rewrite <- (Zlt_Qlt 0); exact Hp).
    assert (inject_Z (2 * Zpos m) == inject_Z ((2 * n + 1) * S))%Q as HZ.
    { rewrite !inject_Z_mult, inject_Z_plus, inject_Z_mult.
      change (inject_Z 2) with 2%Q. change (inject_Z 1) with 1%Q.
      assert (inject_Z (Zpos m) == (inject_Z n + (1 # 2)) * inject_Z S)%Q as ->
        by (rewrite <- H; field; lra).
      ring. }
    apply (proj1 (inject_Z_injective _ _)) in HZ.
    symmetry. apply Z.div_unique with 0; [lia|].
    replace ((2 * n + 1) * S) with (2 * n * S + S) in HZ by ring.
    replace (2 * S * (n + 1) + 0) with (2 * n * S + S + S) by ring.
    lia.
Qed.

(** X17: on a finite value whose rounding fits an [int], [RoundToInt]
    returns an integer within 1/2 of the value and it is odd
    ([RoundToInt(-v) = -RoundToInt(v)]); a finite value whose magnitude is
    exactly [n + 1/2] goes away from zero, to [n + 1] when positive and to
    [-(n + 1)] when negative. *)
Theorem X17_RoundToInt_nearest_half_away :
  (forall sg m e,
     F32.round_magnitude m e <= Int32.max_signed ->
     (Qabs (inject_Z (RoundToInt lu (S754_finite sg m e))
            - F32.to_Q (S754_finite sg m e)) <= 1 # 2)%Q /\
     RoundToInt lu (SFopp (S754_finite sg m e))
       = - RoundToInt lu (S754_finite sg m e)) /\
  (forall m e n,
     0 <= n -> n + 1 <= Int32.max_signed ->
     (F32.to_Q (S754_finite false m e) == inject_Z n + (1 # 2))%Q ->
     RoundToInt lu (S754_finite false m e) = n + 1 /\
     RoundToInt lu (S754_finite true m e) = - (n + 1)).
Proof.
  assert (forall sg m e,
            F32.round_magnitude m e <= Int32.max_signed ->
            RoundToInt lu (S754_finite sg m e)
              = if sg then - F32.round_magnitude m e else F32.round_magnitude m e)
    as Hval.
  { intros sg m e Hfit. unfold RoundToInt, lround. cbn [F32.round_half_away].
    destruct (round_magnitude_nearest m e) as [H0 _].
    match goal with
    | |- (if ?c then _ else _) = _ => assert (c = true) as ->; [|reflexivity]
    end.
    apply andb_true_iff. unfold Int32.min_signed, Int32.max_signed in *.
    destruct sg; split; apply Z.leb_le; lia. }
  split.
  - intros sg m e Hfit. split.
    + rewrite (Hval sg m e Hfit).
      destruct (round_magnitude_nearest m e) as [_ Hq].
      cbn [F32.to_Q]. destruct sg; cbn [cond_Zopp]; [|exact Hq].
      rewrite !inject_Z_opp.
      assert (- inject_Z (F32.round_magnitude m e) - - inject_Z (Zpos m) * 2 ^ e
              == - (inject_Z (F32.round_magnitude m e) - inject_Z (Zpos m) * 2 ^ e))%Q
        as -> by ring.
      now rewrite Qabs_opp.
    + cbn [SFopp]. rewrite !Hval by exact Hfit. destruct sg; cbn [negb]; lia.
  - intros m e n Hn Hfit Hhalf. cbn [F32.to_Q cond_Zopp] in Hhalf.
    pose proof (half_value_rounds_up m e n Hhalf) as Hm.
    rewrite !Hval by (rewrite Hm; exact Hfit).
    now rewrite Hm.
Qed.

(** X18: a NaN ratio passes the [g_aspect <= 0] guard: on a Top or Bottom
    drag of a rectangle of positive width and height the product is NaN,
    and the new width is whatever [lround] returns on NaN when that is
    positive, the old width otherwise. *)
Theorem X18_nan_ratio_is_not_guarded s r edge :
  g_aspect s = S754_nan ->
  0 < rect_width r -> 0 < rect_height r ->
  edge = WMSZ_TOP \/ edge = WMSZ_BOTTOM ->
  let z := Int32.wrap (lu S754_nan) in
  ApplyAspect lu s (Some r) edge
    = Some (set_right r (Int32.add (left r) (if 0 <? z then z else rect_width r))).
Proof.
  intros Hnan Hw Hh E z. subst z.
  rewrite (horizontal_edge_any s r edge); [|now rewrite Hnan | exact Hw | exact Hh | exact E].
  unfold setWidthFromHeight, RoundToInt, lround. cbv zeta. rewrite Hnan.
  assert (F32.mul (F32.of_int (rect_height r)) S754_nan = S754_nan) as ->
    by (destruct (F32.of_int (rect_height r)); reflexivity).
  reflexivity.
Qed.

End Handler.

(** ** Instances of the further properties *)

Lemma X10_handler_answers_only_own_sizing_witness :
  SubclassProc lround_indefinite installed_16_9 15 0
    (Some (mkRECT 0 0 1600 800)) kSubclassId = Forwarded /\
  SubclassProc lround_indefinite installed_16_9 WM_SIZING WMSZ_BOTTOM
    (Some (mkRECT 0 0 1600 800)) 77 = Forwarded /\
  SubclassProc lround_indefinite installed_16_9 WM_SIZING WMSZ_BOTTOM
    None kSubclassId = Handled 1 None.
Proof.
  split; [|split].
  - apply (proj1 (X10_handler_answers_only_own_sizing lround_indefinite
             installed_16_9 15 0 (Some (mkRECT 0 0 1600 800)) kSubclassId)).
    right. vm_compute. discriminate.
  - apply (proj1 (X10_handler_answers_only_own_sizing lround_indefinite
             installed_16_9 WM_SIZING WMSZ_BOTTOM (Some (mkRECT 0 0 1600 800)) 77)).
    left. vm_compute. discriminate.
  - apply (proj2 (X10_handler_answers_only_own_sizing lround_indefinite
             installed_16_9 WM_SIZING WMSZ_BOTTOM None kSubclassId)
             eq_refl eq_refl).
    reflexivity.
Defined.

Lemma X11_vertical_edge_derives_height_witness :
  exists r',
    ApplyAspect lround_indefinite installed_16_9 (Some (mkRECT 10 20 1610 820))
      WMSZ_RIGHT = Some r' /\
    r' = mkRECT 10 20 1610 920 /\
    rect_height r' = 900 /\ rect_width r' = 1600.
Proof.
  apply (X11_vertical_edge_derives_height lround_indefinite
           installed_16_9 (mkRECT 10 20 1610 820) WMSZ_RIGHT).
  - reflexivity.
  - reflexivity.
  - reflexivity.
  - right. reflexivity.
  - reflexivity.
Defined.

Lemma X12_at_most_one_edge_moves_witness :
  exists r',
    ApplyAspect lround_indefinite installed_16_9 (Some (mkRECT 10 20 1610 820))
      WMSZ_TOP = Some r' /\
    edges_changed (mkRECT 10 20 1610 820) r' <= 1 /\
    left r' = 10 /\ top r' = 20 /\ bottom r' = 820.
Proof.
  destruct (X12_at_most_one_edge_moves lround_indefinite installed_16_9
              (mkRECT 10 20 1610 820) WMSZ_TOP) as [r' [H1 [H2 [H3 _]]]].
  exists r'. split; [exact H1|]. split; [exact H2|].
  apply H3. left. reflexivity.
Defined.

Lemma X13_dimensions_stay_positive_witness :
  0 < rect_width (mkRECT 0 (-50) 1600 850) /\
  0 < rect_height (mkRECT 0 (-50) 1600 850).
Proof.
  apply (X13_dimensions_stay_positive lround_indefinite installed_16_9
           (mkRECT 0 0 1600 850) WMSZ_TOPLEFT (mkRECT 0 (-50) 1600 850));
    reflexivity.
Defined.

Lemma X14_edge_correction_idempotent_witness :
  ApplyAspect lround_indefinite installed_16_9 (Some (mkRECT 0 0 1422 800))
    WMSZ_BOTTOM = Some (mkRECT 0 0 1422 800).
Proof.
  apply (X14_edge_correction_idempotent lround_indefinite installed_16_9
           (mkRECT 0 0 1600 800) WMSZ_BOTTOM (mkRECT 0 0 1422 800)).
  - right. right. right. reflexivity.
  - reflexivity.
Defined.

Lemma X16_RoundToInt_of_int_witness :
  RoundToInt lround_indefinite (F32.of_int (-1600)) = -1600.
Proof.
  apply (X16_RoundToInt_of_int lround_indefinite (-1600)). lia.
Defined.

Lemma X17_RoundToInt_nearest_half_away_witness :
  ((Qabs (inject_Z (RoundToInt lround_indefinite (S754_finite false 7%positive (-2)))
          - F32.to_Q (S754_finite false 7%positive (-2))) <= 1 # 2)%Q /\
   RoundToInt lround_indefinite (SFopp (S754_finite false 7%positive (-2)))
     = - RoundToInt lround_indefinite (S754_finite false 7%positive (-2))) /\
  (RoundToInt lround_indefinite (S754_finite false 10485760 (-22)) = 2 + 1 /\
   RoundToInt lround_indefinite (S754_finite true 10485760 (-22)) = - (2 + 1)).
Proof.
  split.
  - apply (proj1 (X17_RoundToInt_nearest_half_away lround_indefinite) false 7%positive (-2)).
    vm_compute. discriminate.
  - apply (proj2 (X17_RoundToInt_nearest_half_away lround_indefinite)
             10485760%positive (-22) 2).
    + lia.
    + vm_compute. discriminate.
    + vm_compute. reflexivity.
Defined.

Lemma X18_nan_ratio_is_not_guarded_witness :
  ApplyAspect lround_indefinite (mkLockState 102 true S754_nan)
    (Some (mkRECT 0 0 300 400)) WMSZ_BOTTOM
  = Some (mkRECT 0 0 300 400).
Proof.
  apply (X18_nan_ratio_is_not_guarded lround_indefinite
           (mkLockState 102 true S754_nan) (mkRECT 0 0 300 400) WMSZ_BOTTOM).
  - reflexivity.
  - reflexivity.
  - reflexivity.
  - right. reflexivity.
Defined.
